(** * Analizador léxico para un diccionario finito

    A shallow embedding of [analizadorLexico.py] and the verification of its
    classification rule, its identifier pattern and its dictionary loader.

    - A Python [str] is a sequence of Unicode code points: [list N].
    - The [dict] [palabras_clave] is a finite map [gmap str str].
    - The compiled regular expression is the parsed pattern, run by a
      backtracking matcher that follows the semantics of Python's [re].
    - Methods of [AnalizadorLexico] are computations in a state and exception
      monad over the object's attributes and the file system.
    - The files are modelled by their decoded text. The loader and the
      classifier are modelled without the console, which they only report
      to.
    - Writing and running depend on what the program cannot see in those
      texts: which paths name one file, which paths cannot be opened or
      read, and which messages the console cannot print. These are given by
      an environment; a text that cannot be encoded is not written. *)

From Stdlib Require Import NArith Ascii String.
From stdpp Require Import gmap strings list fin_maps pretty.

Local Open Scope N_scope.

(** ** Python strings *)

Module Py.

(** A string is the list of its code points. *)
Abbreviation str := (list N).

(** The code points of an ASCII literal. *)
Definition lit (s : string) : str :=
  (λ a, N_of_ascii a) <$> list_ascii_of_string s.

Definition LF : N := 10.
Definition CR : N := 13.
Definition SP : N := 32.

(** [str.isspace] on one code point: the code points whose bidirectional
    class is WS, B or S, or whose category is Zs. *)
Definition isspace (c : N) : bool :=
  ((9 <=? c) && (c <=? 13)) || ((28 <=? c) && (c <=? 32))
  || (c =? 133) || (c =? 160) || (c =? 5760)
  || ((8192 <=? c) && (c <=? 8202))
  || (c =? 8232) || (c =? 8233) || (c =? 8239) || (c =? 8287) || (c =? 12288).

(** [bool(s)] for a string: non-empty. *)
Definition truthy (s : str) : bool :=
  match s with [] => false | _ :: _ => true end.

Fixpoint lstrip (s : str) : str :=
  match s with
  | c :: s' => if isspace c then lstrip s' else s
  | [] => []
  end.

Definition rstrip (s : str) : str := reverse (lstrip (reverse s)).

(** [s.strip()]: leading and trailing whitespace removed. *)
Definition strip (s : str) : str := rstrip (lstrip s).

(** [s.split()] without arguments: the maximal runs of non-whitespace, in
    order; [palabra] is the run being read. *)
Fixpoint split_desde (palabra : str) (s : str) : list str :=
  match s with
  | [] => if truthy palabra then [palabra] else []
  | c :: s' =>
      if isspace c
      then (if truthy palabra then palabra :: split_desde [] s'
            else split_desde [] s')
      else split_desde (palabra ++ [c]) s'
  end.

Definition split (s : str) : list str := split_desde [] s.

(** [s.ljust(n)], which is what the format specification [:<n] does to a
    string: padded on the right with spaces, never truncated. *)
Definition ljust (n : nat) (s : str) : str :=
  s ++ replicate (n - length s) SP.

(** Text-mode reading with the default [newline=None]: [\r\n] and a lone
    [\r] are read as [\n]. *)
Fixpoint universal_newlines (s : str) : str :=
  match s with
  | [] => []
  | c :: s' =>
      if c =? CR
      then LF :: match s' with
                 | [] => []
                 | d :: s'' =>
                     if d =? LF then universal_newlines s''
                     else universal_newlines s'
                 end
      else c :: universal_newlines s'
  end.

(** Iterating over a text file: each line with its terminating [\n]; the
    last line has none when the text does not end with one. *)
Fixpoint lineas_desde (linea : str) (s : str) : list str :=
  match s with
  | [] => if truthy linea then [linea] else []
  | c :: s' =>
      if c =? LF then (linea ++ [c]) :: lineas_desde [] s'
      else lineas_desde (linea ++ [c]) s'
  end.

Definition lineas (s : str) : list str := lineas_desde [] s.

End Py.

(** ** The fragment of [re] used by the analyser *)

Module Re.
Import Py.

(** The items of a parsed pattern, named as [re]'s parser names them. *)
Inductive item : Type :=
  | AT_BEGINNING                          (* ^ *)
  | AT_END                                (* $ *)
  | IN (rangos : list (N * N))            (* [a-z] *)
  | MAX_REPEAT_IN (rangos : list (N * N)) (* [a-z]*, greedy *).

Definition Pattern : Type := list item.

Definition en_rangos (c : N) (rangos : list (N * N)) : bool :=
  existsb (λ r, (r.1 <=? c) && (c <=? r.2)) rangos.

(** [$] without [re.MULTILINE]: at the end of the string, or just before a
    newline that is the last character of the string. [resto] is what is
    left of the string at the current position. *)
Definition at_end (resto : str) : bool :=
  match resto with
  | [] => true
  | [c] => c =? LF
  | _ => false
  end.

(** The backtracking matcher: [sre_match p pos resto] is the end position of
    the first match of [p] found at position [pos], where [resto] is the
    string from [pos] on. A greedy repetition takes as many characters as it
    can and gives them back one at a time while the rest of the pattern
    fails. *)
Fixpoint sre_match (p : Pattern) (pos : nat) (resto : str) : option nat :=
  match p with
  | [] => Some pos
  | AT_BEGINNING :: p' =>
      if Nat.eqb pos 0 then sre_match p' pos resto else None
  | AT_END :: p' =>
      if at_end resto then sre_match p' pos resto else None
  | IN rangos :: p' =>
      match resto with
      | c :: resto' =>
          if en_rangos c rangos then sre_match p' (S pos) resto' else None
      | [] => None
      end
  | MAX_REPEAT_IN rangos :: p' =>
      (fix repetir (pos : nat) (resto : str) {struct resto} : option nat :=
         match resto with
         | c :: resto' =>
             if en_rangos c rangos
             then match repetir (S pos) resto' with
                  | Some fin => Some fin
                  | None => sre_match p' pos resto
                  end
             else sre_match p' pos resto
         | [] => sre_match p' pos resto
         end) pos resto
  end.

(** A match object: its span. *)
Record Match : Type := { start : nat; end_ : nat }.

(** [pattern.match(s)]: a match at the beginning of [s], or [None]. *)
Definition match_ (p : Pattern) (s : str) : option Match :=
  fin ← sre_match p 0%nat s; Some {| start := 0; end_ := fin |}.

(** [bool(m)] for the result of a match: a match object is always true,
    [None] is false. *)
Definition bool_ (m : option Match) : bool :=
  match m with Some _ => true | None => false end.

Definition rango (a b : string) : N * N :=
  (default 0 (head (lit a)), default 0 (head (lit b))).

(** [re.compile(r'^[a-z][a-z0-9]*$')] *)
Definition compile_identificador : Pattern :=
  [ AT_BEGINNING;
    IN [rango "a" "z"];
    MAX_REPEAT_IN [rango "a" "z"; rango "0" "9"];
    AT_END ].

End Re.

(** ** Exceptions, state and the file system *)

Module Efecto.
Import Py Re.

Inductive exn : Type :=
  | FileNotFoundError (archivo : str)
  | KeyError (clave : str)
  | ValueError
  | IsADirectoryError (archivo : str)
  | PermissionError (archivo : str)
  | UnicodeDecodeError
  | UnicodeEncodeError.

Inductive resultado (A : Type) : Type :=
  | Ok (a : A)
  | Raise (e : exn).
Arguments Ok {A} a.
Arguments Raise {A} e.

(** The attributes of an [AnalizadorLexico] object. *)
Record AnalizadorLexico : Type := {
  palabras_clave : gmap str str;
  patron_identificador : Pattern
}.

(** What a method can read and change: the attributes of [self] and the
    files, a map from a path to the text of the file. *)
Record Estado : Type := {
  self : AnalizadorLexico;
  archivos : gmap str str
}.

Definition M (A : Type) : Type := Estado → resultado A * Estado.

(** [return a] *)
Definition ret {A : Type} (a : A) : M A := λ st, (Ok a, st).

#[export] Instance M_ret : MRet M := @ret.

#[export] Instance M_bind : MBind M := λ A B k m st,
  match m st with
  | (Ok a, st') => k a st'
  | (Raise e, st') => (Raise e, st')
  end.

Definition raise {A : Type} (e : exn) : M A := λ st, (Raise e, st).

(** [try: m  except Exception as e: h e] *)
Definition try_except {A : Type} (m : M A) (h : exn → M A) : M A := λ st,
  match m st with
  | (Ok a, st') => (Ok a, st')
  | (Raise e, st') => h e st'
  end.

(** [for x in xs: cuerpo x] *)
Fixpoint for_ {A : Type} (xs : list A) (cuerpo : A → M ()) : M () :=
  match xs with
  | [] => ret ()
  | x :: xs' => cuerpo x ;; for_ xs' cuerpo
  end.

(** Reading and writing the attributes of [self]. *)
Definition get_palabras_clave : M (gmap str str) :=
  λ st, (Ok (palabras_clave (self st)), st).

Definition get_patron_identificador : M Pattern :=
  λ st, (Ok (patron_identificador (self st)), st).

Definition set_palabras_clave (d : gmap str str) : M () := λ st,
  (Ok (), {| self := {| palabras_clave := d;
                        patron_identificador := patron_identificador (self st) |};
             archivos := archivos st |}).

(** [k in d] and [d[k]] on a dictionary. *)
Definition dict_contains (d : gmap str str) (k : str) : bool :=
  bool_decide (is_Some (d !! k)).

Definition dict_getitem (d : gmap str str) (k : str) : M str :=
  match d !! k with
  | Some v => ret v
  | None => raise (KeyError k)
  end.

(** [open(archivo, 'r', encoding='utf-8')] followed by reading: the text of
    the file with its newlines translated, or [FileNotFoundError]. *)
Definition open_r (archivo : str) : M str := λ st,
  match archivos st !! archivo with
  | Some texto => (Ok (universal_newlines texto), st)
  | None => (Raise (FileNotFoundError archivo), st)
  end.

(** What the program cannot see in the texts of the files.
    - [mismo_archivo p q]: the paths [p] and [q] name one file, as in.txt
      and ./in.txt do.
    - [error_al_abrir p]: the exception of [open(p, 'w')] when the path
      cannot be opened for writing: FileNotFoundError for the empty path or
      a directory that is not there, IsADirectoryError, PermissionError,
      ValueError for a path with a null character.
    - [error_al_leer p]: the exception of [open(p, 'r')] and [f.read()] when
      something is there and cannot be read: IsADirectoryError,
      PermissionError, or UnicodeDecodeError for bytes that are not UTF-8.
    - [error_al_imprimir m]: the exception of [print(m)] when the console
      cannot take the message, as UnicodeEncodeError for a character that
      the encoding of the console does not have.
    - [texto_de e]: [str(e)], the text of an exception in a message. *)
Record Entorno : Type := {
  mismo_archivo : str → str → bool;
  error_al_abrir : str → option exn;
  error_al_leer : str → option exn;
  error_al_imprimir : str → option exn;
  texto_de : exn → str
}.

(** The path [q] names the file that [p] names. *)
Definition alias (so : Entorno) (p q : str) : bool :=
  bool_decide (p = q) || mismo_archivo so p q.

(** The files once the file at [p] holds [texto]: every path of that file
    shows the text. *)
Definition poner (so : Entorno) (p texto : str) (fs : gmap str str)
  : gmap str str :=
  <[p := texto]> (map_imap (λ q v, Some (if alias so p q then texto else v)) fs).

(** The UTF-8 encoder with strict error handling refuses the surrogate code
    points, U+D800 to U+DFFF, and nothing else. *)
Definition codificable (s : str) : bool :=
  forallb (λ c, negb ((55296 <=? c) && (c <=? 57343))) s.

(** [print(mensaje)] *)
Definition print (so : Entorno) (mensaje : str) : M () := λ st,
  match error_al_imprimir so mensaje with
  | Some e => (Raise e, st)
  | None => (Ok (), st)
  end.

(** [open(archivo, 'r', encoding='utf-8')] and [f.read()]: the whole text,
    read before anything is done with it. *)
Definition read_all (so : Entorno) (archivo : str) : M str := λ st,
  match error_al_leer so archivo with
  | Some e => (Raise e, st)
  | None => open_r archivo st
  end.

(** [open(archivo, 'w', encoding='utf-8')]: the file is created or emptied,
    or the exception of the environment is raised and no file changes. *)
Definition open_w (so : Entorno) (archivo : str) : M () := λ st,
  match error_al_abrir so archivo with
  | Some e => (Raise e, st)
  | None =>
      (Ok (), {| self := self st;
                 archivos := poner so archivo [] (archivos st) |})
  end.

(** [f.write(s)] on a file opened for writing at [archivo]: the text is
    encoded first, and [UnicodeEncodeError] is raised with nothing of it
    written; what was written before stays in the file, which the [with]
    statement closes. *)
Definition write (so : Entorno) (archivo : str) (s : str) : M () := λ st,
  if codificable s then
    (Ok (), {| self := self st;
               archivos := poner so archivo
                             (default [] (archivos st !! archivo) ++ s)
                             (archivos st) |})
  else (Raise UnicodeEncodeError, st).

End Efecto.

(** ** The analyser *)

Module Analizador.
Import Py Re.
Export Efecto.

Definition IDENTIFICADOR : str := lit "IDENTIFICADOR".
Definition ERROR_LEXICO : str := lit "ERROR_LEXICO".

(** The body of the loop of [cargar_diccionario]: the line is stripped; a
    non-empty line that splits into exactly two fields records the second
    field as the kind of the first. *)
Definition cargar_linea (linea : str) : M () :=
  let linea := strip linea in
  if truthy linea then
    let partes := split linea in
    if Nat.eqb (length partes) 2 then
      match partes with
      | [lexema; tipo_token] =>
          d ← get_palabras_clave;
          set_palabras_clave (<[lexema := tipo_token]> d)
      | _ => raise ValueError
      end
    else ret ()
  else ret ().

(** [cargar_diccionario]: the lines of the file, one after the other. The
    [except] clauses report on the console and raise the exception again. *)
Definition cargar_diccionario (archivo : str) : M () :=
  try_except
    (f ← open_r archivo;
     for_ (lineas f) cargar_linea)
    (λ e, raise e).

(** [__init__]: a new object with an empty table and the compiled pattern,
    then the dictionary is loaded. *)
Definition init (archivo_diccionario : str) (archivos0 : gmap str str)
  : resultado AnalizadorLexico * gmap str str :=
  let st := {| self := {| palabras_clave := ∅;
                          patron_identificador := compile_identificador |};
               archivos := archivos0 |} in
  match cargar_diccionario archivo_diccionario st with
  | (Ok _, st') => (Ok (self st'), archivos st')
  | (Raise e, st') => (Raise e, archivos st')
  end.

Definition es_identificador (palabra : str) : M bool :=
  patron ← get_patron_identificador;
  ret (bool_ (match_ patron palabra)).

Definition clasificar_token (palabra : str) : M (str * str) :=
  d ← get_palabras_clave;
  if dict_contains d palabra then
    tipo_token ← dict_getitem d palabra;
    ret (tipo_token, palabra)
  else
    b ← es_identificador palabra;
    if (b : bool) then ret (IDENTIFICADOR, palabra)
    else ret (ERROR_LEXICO, palabra).

(** [generar_salida]: the file gets the two header lines and one line per
    token, in the order of [tokens]; with the file closed, the same table
    goes to the console between rules of equals signs. The [except] clause
    reports on the console and raises the exception again. *)
Definition generar_salida (so : Entorno) (tokens : list (str * str))
    (archivo_salida : str) : M () :=
  try_except
    (open_w so archivo_salida;;
     write so archivo_salida
       (ljust 20 (lit "Token") ++ [SP] ++ ljust 20 (lit "Lexema") ++ [LF]);;
     write so archivo_salida
       (replicate 40 (default 0 (head (lit "-"))) ++ [LF]);;
     for_ tokens (λ '(tipo_token, lexema),
       write so archivo_salida
         (ljust 20 tipo_token ++ [SP] ++ ljust 20 lexema ++ [LF]));;
     print so ([LF] ++ replicate 40 (default 0 (head (lit "="))));;
     print so (ljust 20 (lit "Token") ++ [SP] ++ ljust 20 (lit "Lexema"));;
     print so (replicate 40 (default 0 (head (lit "="))));;
     for_ tokens (λ '(tipo_token, lexema),
       print so (ljust 20 tipo_token ++ [SP] ++ ljust 20 lexema));;
     print so (replicate 40 (default 0 (head (lit "=")))))
    (λ e, print so (lit "Error al generar el archivo de salida: "
                    ++ texto_de so e);;
          raise e).

(** The loop of [analizar_archivo] that classifies every word and appends the
    pair to [tokens]. *)
Fixpoint analizar_palabras (tokens : list (str * str)) (palabras : list str)
  : M (list (str * str)) :=
  match palabras with
  | [] => ret tokens
  | palabra :: palabras' =>
      '(tipo_token, lexema) ← clasificar_token palabra;
      analizar_palabras (tokens ++ [(tipo_token, lexema)]) palabras'
  end.

(** [analizar_archivo]: the text is read whole, its words, split on
    whitespace, are classified in order and the results handed to
    [generar_salida]; then the number of tokens and the output path are
    reported on the console. The [except] clauses report on the console,
    FileNotFoundError with a message of its own, and raise the exception
    again. *)
Definition analizar_archivo (so : Entorno)
    (archivo_entrada archivo_salida : str) : M () :=
  try_except
    (contenido ← read_all so archivo_entrada;
     let palabras := split contenido in
     tokens ← analizar_palabras [] palabras;
     generar_salida so tokens archivo_salida;;
     print so ([LF] ++ lit "An" ++ [225] ++ lit "lisis completado: "
               ++ lit (pretty (length tokens)) ++ lit " tokens procesados");;
     print so (lit "Resultados guardados en: " ++ archivo_salida))
    (λ e,
       match e with
       | FileNotFoundError _ =>
           print so (lit "Error: No se encontr" ++ [243] ++ lit " el archivo "
                     ++ archivo_entrada);;
           raise e
       | _ =>
           print so (lit "Error al analizar el archivo: " ++ texto_de so e);;
           raise e
       end).

End Analizador.

(** ** What the specification says, in its own words *)

Module Spec.
Import Py Re Analizador.

Definition minuscula (c : N) : bool := (97 <=? c) && (c <=? 122).
Definition digito (c : N) : bool := (48 <=? c) && (c <=? 57).

(** "One lowercase ASCII letter, followed by zero or more lowercase ASCII
    letters or ASCII digits", the entire token. *)
Definition identificador_valido (t : str) : bool :=
  match t with
  | [] => false
  | c :: cola => minuscula c && forallb (λ x, minuscula x || digito x) cola
  end.

(** What [pattern.match] accepts for the pattern ^[a-z][a-z0-9]*$ of the
    constructor: a string that, without its final newline when it has one,
    is a lowercase letter followed by lowercase letters and digits. *)
Definition sin_salto_final (t : str) : str :=
  match reverse t with
  | c :: r => if c =? LF then reverse r else t
  | [] => t
  end.

Definition coincide_patron (t : str) : bool :=
  identificador_valido (sin_salto_final t).

(** An analyser as [__init__] builds it, for a given table. *)
Definition analizador (d : gmap str str) : AnalizadorLexico :=
  {| palabras_clave := d; patron_identificador := compile_identificador |}.

Definition estado (d : gmap str str) (fs : gmap str str) : Estado :=
  {| self := analizador d; archivos := fs |}.

(** A dictionary line is well formed when it splits into exactly two
    whitespace-separated fields; it then is an entry of the table. *)
Definition entrada_de (linea : str) : option (str * str) :=
  match split linea with
  | [lexema; tipo_token] => Some (lexema, tipo_token)
  | _ => None
  end.

Definition bien_formada (linea : str) : bool :=
  Nat.eqb (length (split linea)) 2.

(** The number of well-formed lines of a dictionary text. *)
Definition lineas_bien_formadas (texto : str) : nat :=
  length (List.filter bien_formada (lineas (universal_newlines texto))).

(** The entries of a dictionary text, in the order of its lines. *)
Definition entradas (texto : str) : list (str * str) :=
  omap entrada_de (lineas (universal_newlines texto)).

(** Inserting the entries in order, a later one over an earlier one. *)
Definition insertar (d : gmap str str) (es : list (str * str))
  : gmap str str :=
  foldl (λ d e, <[e.1 := e.2]> d) d es.

(** The three ways a token gets its kind. *)
Definition por_tabla (st : Estado) (t tipo : str) : Prop :=
  palabras_clave (self st) !! t = Some tipo.

Definition por_patron (st : Estado) (t tipo : str) : Prop :=
  palabras_clave (self st) !! t = None ∧
  es_identificador t st = (Ok true, st) ∧ tipo = IDENTIFICADOR.

Definition por_descarte (st : Estado) (t tipo : str) : Prop :=
  palabras_clave (self st) !! t = None ∧
  es_identificador t st = (Ok false, st) ∧ tipo = ERROR_LEXICO.

(** The same object with another compiled pattern. *)
Definition con_patron (p : Pattern) (st : Estado) : Estado :=
  {| self := {| palabras_clave := palabras_clave (self st);
                patron_identificador := p |};
     archivos := archivos st |}.

(** The same object with another table. *)
Definition con_tabla (d : gmap str str) (st : Estado) : Estado :=
  {| self := {| palabras_clave := d;
                patron_identificador := patron_identificador (self st) |};
     archivos := archivos st |}.

(** The same state once the file at a path holds a text. *)
Definition con_escrito (so : Entorno) (archivo texto : str) (st : Estado)
  : Estado :=
  {| self := self st; archivos := poner so archivo texto (archivos st) |}.

(** The report: the header, the rule, and one line per result, in order. *)
Definition linea_de (token : str * str) : str :=
  ljust 20 token.1 ++ [SP] ++ ljust 20 token.2 ++ [LF].

Definition informe (tokens : list (str * str)) : str :=
  (ljust 20 (lit "Token") ++ [SP] ++ ljust 20 (lit "Lexema") ++ [LF])
  ++ (replicate 40 (default 0 (head (lit "-"))) ++ [LF])
  ++ concat (linea_de <$> tokens).

End Spec.

(** ** Concrete inputs *)

Module Ejemplos.
Import Py Re Analizador Spec.

Definition tabla_if : gmap str str :=
  {[ lit "if" := lit "PALABRA_RESERVADA" ]}.

Definition tabla_kw : gmap str str :=
  {[ lit "if" := lit "KW_IF"; lit "while" := lit "KW_WHILE" ]}.

Definition ruta_diccionario : str := lit "diccionario.txt".
Definition ruta_entrada : str := lit "texto_entrada.txt".
Definition ruta_salida : str := lit "tokens_salida.txt".

(** Two lines for the same lexeme. *)
Definition texto_xx : str := lit "x A" ++ [LF] ++ lit "x B" ++ [LF].

(** Two good lines among a blank line, a line of one field and a line of
    three. *)
Definition texto_mixto : str :=
  lit "if KW_IF" ++ [LF] ++ [LF] ++ lit "uno" ++ [LF]
  ++ lit "a b c" ++ [LF] ++ lit "while KW_WHILE" ++ [LF].

Definition texto_entrada : str := lit "if x1 1x" ++ [LF] ++ lit "while".

End Ejemplos.

(** ** Auxiliary definitions for the proofs *)

Module Aux.
Import Py Re Spec.

(** What is left for [[a-z0-9]*$] after the first letter: letters and digits,
    then the end, or a newline that is the last character. *)
Fixpoint acepta_cola (cola : str) : bool :=
  match cola with
  | [] => true
  | c :: cola' =>
      if minuscula c || digito c then acepta_cola cola'
      else at_end (c :: cola')
  end.

End Aux.

(** ** The entry point *)

Module Principal.
Import Py Re Analizador.

(** The messages of [main] and of the constructor it calls need no object:
    [imprimir] is [print] without a state. *)
Definition imprimir (so : Entorno) (mensaje : str) : option exn :=
  error_al_imprimir so mensaje.

(** The constructor as [main] calls it, with the console: a dictionary that
    is there and cannot be read or decoded raises; the number of keywords
    loaded is reported; an exception is reported, FileNotFoundError with a
    message of its own, and raised again. [main] keeps no object after an
    exception. *)
Definition construir (so : Entorno) (archivo_diccionario : str)
    (archivos0 : gmap str str) : resultado AnalizadorLexico * gmap str str :=
  let manejar (e : exn) (archivos1 : gmap str str) :=
    match imprimir so
            match e with
            | FileNotFoundError _ =>
                lit "Error: No se encontr" ++ [243] ++ lit " el archivo "
                ++ archivo_diccionario
            | _ => lit "Error al cargar el diccionario: " ++ texto_de so e
            end with
    | Some e' => (Raise e', archivos1)
    | None => (Raise e, archivos1)
    end in
  match error_al_leer so archivo_diccionario with
  | Some e => manejar e archivos0
  | None =>
      match init archivo_diccionario archivos0 with
      | (Raise e, archivos1) => manejar e archivos1
      | (Ok analizador, archivos1) =>
          match imprimir so (lit "Diccionario cargado: "
                             ++ lit (pretty (size (palabras_clave analizador)))
                             ++ lit " palabras clave") with
          | Some e => manejar e archivos1
          | None => (Ok analizador, archivos1)
          end
      end
  end.

(** [main]: after the banner, the analyser is built from diccionario.txt
    and analyses texto_entrada.txt into tokens_salida.txt. An exception of
    these steps, or of the message of success, is caught and reported, and
    the function returns 1; without one it returns 0. A message that the
    console cannot print outside the [try], or in the [except] clause, is an
    exception of [main] itself. The result is the return code, or the
    exception, and the files left. *)
Definition main (so : Entorno) (archivos0 : gmap str str)
  : resultado Z * gmap str str :=
  let archivo_diccionario := lit "diccionario.txt" in
  let archivo_entrada := lit "texto_entrada.txt" in
  let archivo_salida := lit "tokens_salida.txt" in
  let manejar (e : exn) (archivos1 : gmap str str) :=
    match imprimir so ([LF; 10007] ++ lit " Error durante la ejecuci" ++ [243]
                       ++ lit "n: " ++ texto_de so e) with
    | Some e' => (Raise e', archivos1)
    | None => (Ok 1%Z, archivos1)
    end in
  match imprimir so (replicate 50 (default 0 (head (lit "=")))) with
  | Some e => (Raise e, archivos0)
  | None =>
  match imprimir so (lit "ANALIZADOR L" ++ [201] ++ lit "XICO - LENGUAJES Y AUT"
                     ++ [211] ++ lit "MATAS") with
  | Some e => (Raise e, archivos0)
  | None =>
  match imprimir so (lit "Universidad Polit" ++ [233] ++ lit "cnica de Chiapas")
  with
  | Some e => (Raise e, archivos0)
  | None =>
  match imprimir so (replicate 50 (default 0 (head (lit "=")))) with
  | Some e => (Raise e, archivos0)
  | None =>
  match construir so archivo_diccionario archivos0 with
  | (Raise e, archivos1) => manejar e archivos1
  | (Ok analizador, archivos1) =>
      match analizar_archivo so archivo_entrada archivo_salida
              {| self := analizador; archivos := archivos1 |} with
      | (Raise e, st) => manejar e (archivos st)
      | (Ok _, st) =>
          match imprimir so ([LF; 10003]
                             ++ lit " Proceso completado exitosamente") with
          | Some e => manejar e (archivos st)
          | None => (Ok 0%Z, archivos st)
          end
      end
  end end end end end.

End Principal.

(** ** Vocabulary of the further properties *)

Module Enunciados.
Import Py Re Analizador Spec.

(** A string without whitespace, and a field: a non-empty one. *)
Definition sin_espacios (p : str) : Prop := Forall (λ c, isspace c = false) p.

Definition campo (p : str) : Prop := p ≠ [] ∧ sin_espacios p.

Definition blanco (s : str) : Prop := Forall (λ c, isspace c = true) s.

(** The classification by the table and the grammar of identifiers. *)
Definition clasificacion (d : gmap str str) (t : str) : str * str :=
  (match d !! t with
   | Some tipo => tipo
   | None => if identificador_valido t then IDENTIFICADOR else ERROR_LEXICO
   end, t).

(** A console that prints every message. *)
Definition consola_fiable (so : Entorno) : Prop :=
  ∀ mensaje, error_al_imprimir so mensaje = None.

(** A token that can be written. *)
Definition escribible (token : str * str) : Prop :=
  codificable token.1 = true ∧ codificable token.2 = true.

(** A line of the report without its newline, and the two header lines
    without theirs. *)
Definition cuerpo_de (token : str * str) : str :=
  ljust 20 token.1 ++ [SP] ++ ljust 20 token.2.

Definition cabecera : str :=
  ljust 20 (lit "Token") ++ [SP] ++ ljust 20 (lit "Lexema").

Definition regla : str := replicate 40 (default 0 (head (lit "-"))).

End Enunciados.

(** ** Further concrete inputs *)

Module Casos.
Import Py Re Analizador Spec.

(** A dictionary without a well-formed line. *)
Definition texto_sin_entradas : str :=
  lit "uno" ++ [LF] ++ lit "a b c" ++ [LF].

(** A text of whitespace only. *)
Definition texto_en_blanco : str := [SP; LF; 9; SP].

(** The results for the words if, x1, 1x, while. *)
Definition resultados : list (str * str) :=
  [(lit "KW_IF", lit "if"); (IDENTIFICADOR, lit "x1");
   (ERROR_LEXICO, lit "1x"); (lit "KW_WHILE", lit "while")].

(** A text with carriage returns in its line endings. *)
Definition texto_crlf : str :=
  lit "if x1" ++ [CR; LF] ++ lit "1x" ++ [CR] ++ lit "while" ++ [CR; LF].

(** An environment where every path can be opened and read, and a path
    and the same path after ./ name one file. *)
Definition entorno_llano : Entorno :=
  {| mismo_archivo p q :=
       bool_decide (q = lit "./" ++ p) || bool_decide (p = lit "./" ++ q);
     error_al_abrir p := None;
     error_al_leer p := None;
     error_al_imprimir m := None;
     texto_de e := [] |}.

(** An environment where the output path cannot be opened. *)
Definition entorno_cerrado : Entorno :=
  {| mismo_archivo p q := false;
     error_al_abrir p := Some (PermissionError p);
     error_al_leer p := None;
     error_al_imprimir m := None;
     texto_de e := [] |}.

(** A console that prints ASCII only. *)
Definition entorno_ascii : Entorno :=
  {| mismo_archivo p q := false;
     error_al_abrir p := None;
     error_al_leer p := None;
     error_al_imprimir m :=
       if forallb (λ c, c <? 128) m then None else Some UnicodeEncodeError;
     texto_de e := [] |}.

(** An environment where the dictionary is not UTF-8. *)
Definition entorno_binario : Entorno :=
  {| mismo_archivo p q := false;
     error_al_abrir p := None;
     error_al_leer p :=
       if bool_decide (p = lit "diccionario.txt")
       then Some UnicodeDecodeError else None;
     error_al_imprimir m := None;
     texto_de e := [] |}.

(** The files of a complete run. *)
Definition archivos_completos : gmap str str :=
  {[ lit "diccionario.txt" := lit "if KW_IF" ++ [LF] ++ lit "while KW_WHILE";
     lit "texto_entrada.txt" := lit "if x1 1x" ++ [LF] ++ lit "while" ]}.

(** A lexeme with a lone surrogate. *)
Definition resultado_incodificable : str * str := (ERROR_LEXICO, [55296]).

End Casos.

(** ** Properties of the string functions *)

Section cadenas.
Import Py.

Lemma split_desde_app (palabra s esp : str) :
  forallb isspace esp = true →
  split_desde palabra (s ++ esp) = split_desde palabra s.
Proof.
  intros Hesp. revert palabra.
  induction s as [|c s IH]; intros palabra; simpl.
  - revert palabra. induction esp as [|e esp IHe]; intros palabra; [done|].
    simpl in Hesp. apply andb_prop in Hesp as [He Hesp]. simpl. rewrite He.
    simpl in IHe. rewrite (IHe Hesp []). by destruct (truthy palabra).
  - destruct (isspace c); [|by apply IH].
    destruct (truthy palabra); [f_equal|]; by apply IH.
Qed.

Lemma split_lstrip (s : str) : split (lstrip s) = split s.
Proof.
  unfold split. induction s as [|c s IH]; [done|].
  simpl. destruct (isspace c) eqn:Hc; [done|]. simpl. by rewrite Hc.
Qed.

Lemma lstrip_partes (s : str) :
  ∃ esp, forallb isspace esp = true ∧ s = esp ++ lstrip s.
Proof.
  induction s as [|c s (esp & Hesp & IH)]; [by exists []|].
  simpl. destruct (isspace c) eqn:Hc.
  - exists (c :: esp). simpl. rewrite Hc, Hesp. split; [done|]. by f_equal.
  - by exists [].
Qed.

Lemma rstrip_partes (s : str) :
  ∃ esp, forallb isspace esp = true ∧ s = rstrip s ++ esp.
Proof.
  unfold rstrip. destruct (lstrip_partes (reverse s)) as (esp & Hesp & Heq).
  exists (reverse esp). split.
  - apply forallb_forall. intros x Hx. rewrite <- list_elem_of_In in Hx.
    rewrite elem_of_reverse in Hx. rewrite forallb_forall in Hesp.
    apply Hesp. by apply list_elem_of_In.
  - rewrite <- reverse_app, <- Heq. by rewrite reverse_involutive.
Qed.

Lemma split_rstrip (s : str) : split (rstrip s) = split s.
Proof.
  destruct (rstrip_partes s) as (esp & Hesp & Heq).
  rewrite Heq at 2. unfold split. by rewrite split_desde_app.
Qed.

(** The words of [split] hold no whitespace. *)
Lemma split_desde_sin_espacios (s : str) :
  ∀ palabra, Forall (λ c, isspace c = false) palabra →
    Forall (Forall (λ c, isspace c = false)) (split_desde palabra s).
Proof.
  induction s as [|c s IH]; intros palabra Hp; simpl.
  - destruct (truthy palabra); by repeat constructor.
  - destruct (isspace c) eqn:Hc.
    + destruct (truthy palabra); [constructor; [done|]|]; by apply IH.
    + apply IH. apply Forall_app. by repeat constructor.
Qed.

Lemma split_sin_espacios (s : str) :
  Forall (Forall (λ c, isspace c = false)) (split s).
Proof. by apply split_desde_sin_espacios. Qed.

(** Stripping a line first does not change its fields. *)
Lemma split_strip (s : str) : split (strip s) = split s.
Proof. unfold strip. by rewrite split_rstrip, split_lstrip. Qed.

(** A line that strips to nothing has no field. *)
Lemma strip_vacia (s : str) : truthy (strip s) = false → split s = [].
Proof.
  intros H. rewrite <- split_strip. by destruct (strip s).
Qed.

End cadenas.

(** ** The identifier pattern *)

Section patron.
Import Py Re Spec Aux.

Lemma en_rangos_minuscula (c : N) :
  en_rangos c [rango "a" "z"] = minuscula c.
Proof. unfold en_rangos, minuscula. simpl. by rewrite orb_false_r. Qed.

Lemma en_rangos_alfanumerico (c : N) :
  en_rangos c [rango "a" "z"; rango "0" "9"] = minuscula c || digito c.
Proof. unfold en_rangos, minuscula, digito. simpl. by rewrite orb_false_r. Qed.

(** Giving characters back never helps [$]: the repetition followed by [$]
    succeeds exactly when [$] does after the longest run. *)
Lemma sre_match_repetir_at_end (rangos : list (N * N)) (resto : str) :
  ∀ pos, is_Some (sre_match [MAX_REPEAT_IN rangos; AT_END] pos resto) ↔
         (fix cola (r : str) : bool :=
            match r with
            | [] => true
            | c :: r' => if en_rangos c rangos then cola r' else at_end (c :: r')
            end) resto = true.
Proof.
  induction resto as [|c resto IH]; intros pos.
  - simpl. split; [done|]. by eexists.
  - change (sre_match [MAX_REPEAT_IN rangos; AT_END] pos (c :: resto))
      with (if en_rangos c rangos
            then match sre_match [MAX_REPEAT_IN rangos; AT_END] (S pos) resto with
                 | Some fin => Some fin
                 | None => sre_match [AT_END] pos (c :: resto)
                 end
            else sre_match [AT_END] pos (c :: resto)).
    destruct (en_rangos c rangos) eqn:Hc.
    + rewrite <- (IH (S pos)).
      destruct (sre_match [MAX_REPEAT_IN rangos; AT_END] (S pos) resto) eqn:Hr.
      * split; intros _; by eexists.
      * destruct resto as [|d resto].
        -- simpl in Hr. discriminate.
        -- simpl. split; intros [? ?]; discriminate.
    + cbn [sre_match]. destruct (at_end (c :: resto)).
      * split; [done|]. by eexists.
      * split; [intros [? ?]; discriminate|done].
Qed.

Lemma match_identificador (t : str) :
  bool_ (match_ compile_identificador t) =
    match t with
    | [] => false
    | c :: cola => minuscula c && acepta_cola cola
    end.
Proof.
  unfold match_. destruct t as [|c cola]; [done|].
  change (sre_match compile_identificador 0 (c :: cola))
    with (if en_rangos c [rango "a" "z"]
          then sre_match [MAX_REPEAT_IN [rango "a" "z"; rango "0" "9"]; AT_END]
                 1 cola
          else None).
  rewrite en_rangos_minuscula.
  destruct (minuscula c); [|done]. cbn [andb].
  pose proof (sre_match_repetir_at_end
                [rango "a" "z"; rango "0" "9"] cola 1%nat) as H.
  assert (Hcola : (fix cola (r : str) : bool :=
            match r with
            | [] => true
            | c :: r' =>
                if en_rangos c [rango "a" "z"; rango "0" "9"] then cola r'
                else at_end (c :: r')
            end) cola = acepta_cola cola).
  { clear. induction cola as [|c cola IH]; [done|].
    cbn [acepta_cola]. rewrite <- en_rangos_alfanumerico, <- IH. done. }
  rewrite Hcola in H.
  destruct (sre_match [MAX_REPEAT_IN [rango "a" "z"; rango "0" "9"]; AT_END]
              1%nat cola) eqn:Hm; simpl.
  - symmetry. apply H. by eexists.
  - destruct (acepta_cola cola); [|done].
    destruct (proj2 H eq_refl) as [? ?]. discriminate.
Qed.

Lemma acepta_cola_forallb (cola : str) :
  forallb (λ x, minuscula x || digito x) cola = true → acepta_cola cola = true.
Proof.
  induction cola as [|c cola IH]; [done|]. simpl.
  intros [Hc Hcola]%andb_prop. rewrite Hc. by apply IH.
Qed.

Lemma acepta_cola_inv (cola : str) :
  acepta_cola cola = true →
  forallb (λ x, minuscula x || digito x) cola = true ∨
  ∃ cola', cola = cola' ++ [LF] ∧
           forallb (λ x, minuscula x || digito x) cola' = true.
Proof.
  induction cola as [|c cola IH]; [by left|]. cbn [acepta_cola].
  destruct (minuscula c || digito c) eqn:Hc.
  - intros [H | (cola' & -> & H)]%IH.
    + left. simpl. by rewrite Hc, H.
    + right. exists (c :: cola'). simpl. by rewrite Hc, H.
  - destruct cola as [|d cola]; [|done]. simpl.
    intros ->%N.eqb_eq. right. by exists [].
Qed.

Lemma acepta_cola_salto (cola : str) :
  forallb (λ x, minuscula x || digito x) cola = true →
  acepta_cola (cola ++ [LF]) = true.
Proof.
  induction cola as [|c cola IH]; [done|]. simpl.
  intros [Hc Hcola]%andb_prop. rewrite Hc. by apply IH.
Qed.

End patron.

(** ** Classification *)

Section clasificacion.
Import Py Re Analizador Spec Aux Ejemplos.

Lemma es_identificador_eq (st : Estado) (t : str) :
  es_identificador t st =
    (Ok (bool_ (match_ (patron_identificador (self st)) t)), st).
Proof. reflexivity. Qed.

Lemma clasificar_token_eq (st : Estado) (t : str) :
  clasificar_token t st =
    (Ok (match palabras_clave (self st) !! t with
         | Some tipo => tipo
         | None =>
             if bool_ (match_ (patron_identificador (self st)) t)
             then IDENTIFICADOR else ERROR_LEXICO
         end, t), st).
Proof.
  unfold clasificar_token, mbind, M_bind, get_palabras_clave.
  unfold dict_contains, dict_getitem.
  destruct (palabras_clave (self st) !! t) as [tipo|] eqn:Ht.
  - rewrite bool_decide_eq_true_2 by (by eexists). reflexivity.
  - rewrite bool_decide_eq_false_2 by (by intros [? ?]).
    rewrite es_identificador_eq.
    by destruct (bool_ (match_ (patron_identificador (self st)) t)).
Qed.

(** The pattern accepts a valid identifier, and also a valid identifier
    followed by one newline, and nothing else. *)
Lemma es_identificador_caracterizacion (d fs : gmap str str) (t : str) :
  es_identificador t (estado d fs) = (Ok true, estado d fs) ↔
  identificador_valido t = true ∨
  ∃ t', t = t' ++ [LF] ∧ identificador_valido t' = true.
Proof.
  rewrite es_identificador_eq. cbn [estado self analizador patron_identificador].
  rewrite match_identificador. split.
  - intros H. destruct t as [|c cola]; [by inversion H|].
    assert (Hb : minuscula c && acepta_cola cola = true) by congruence.
    apply andb_prop in Hb as [Hc Hcola].
    apply acepta_cola_inv in Hcola as [Hcola | (cola' & -> & Hcola)].
    + left. simpl. by rewrite Hc, Hcola.
    + right. exists (c :: cola'). simpl. by rewrite Hc, Hcola.
  - intros [H | (t' & -> & H)].
    + destruct t as [|c cola]; [done|]. simpl in H.
      apply andb_prop in H as [Hc Hcola].
      by rewrite Hc, (acepta_cola_forallb _ Hcola).
    + destruct t' as [|c cola]; [done|]. simpl in H.
      apply andb_prop in H as [Hc Hcola]. simpl.
      by rewrite Hc, (acepta_cola_salto _ Hcola).
Qed.

Lemma es_identificador_sin_salto (d fs : gmap str str) (t : str) :
  last t ≠ Some LF →
  es_identificador t (estado d fs) = (Ok (identificador_valido t), estado d fs).
Proof.
  intros Hult. pose proof (es_identificador_caracterizacion d fs t) as H.
  rewrite es_identificador_eq in *.
  destruct (bool_ (match_ (patron_identificador (self (estado d fs))) t)).
  - destruct (proj1 H eq_refl) as [-> | (t' & -> & _)]; [done|].
    by rewrite last_snoc in Hult.
  - destruct (identificador_valido t); [|done].
    by rewrite (proj2 H (or_introl eq_refl)).
Qed.

(** On the words that [analizar_archivo] gets from [split], which hold no
    newline, the pattern accepts the valid identifiers and nothing else. *)
Lemma es_identificador_en_palabras (d fs : gmap str str) (texto palabra : str) :
  palabra ∈ split texto →
  es_identificador palabra (estado d fs)
  = (Ok (identificador_valido palabra), estado d fs).
Proof.
  intros Hp. apply es_identificador_sin_salto.
  intros [palabra' ->]%last_Some.
  pose proof (split_sin_espacios texto) as Hs.
  rewrite Forall_forall in Hs. specialize (Hs _ Hp).
  apply Forall_app in Hs as [_ Hs]. by inversion Hs.
Qed.

Lemma identificador_valido_sin_salto (t : str) :
  identificador_valido t = true → last t ≠ Some LF.
Proof.
  intros Hv [t' ->]%last_Some.
  assert (Hall : forallb (λ x, minuscula x || digito x) (t' ++ [LF]) = true).
  { destruct t' as [|c cola]; [done|]. simpl in Hv.
    apply andb_prop in Hv as [Hc Hcola]. simpl. by rewrite Hc, Hcola. }
  rewrite forallb_app in Hall. by apply andb_prop in Hall as [_ Hall].
Qed.

Lemma coincide_patron_spec (t : str) :
  coincide_patron t = true ↔
  identificador_valido t = true ∨
  ∃ t', t = t' ++ [LF] ∧ identificador_valido t' = true.
Proof.
  unfold coincide_patron, sin_salto_final.
  destruct t as [|c t0 _] using rev_ind.
  - cbn. split; [by left|]. intros [H|(t' & H & _)]; [done|].
    by destruct t'.
  - rewrite reverse_snoc. destruct (N.eqb_spec c LF) as [->|Hc].
    + rewrite reverse_involutive. split.
      * intros H. right. by exists t0.
      * intros [H|(t' & Heq & H)].
        -- apply identificador_valido_sin_salto in H.
           by rewrite last_snoc in H.
        -- by apply app_inj_tail in Heq as [-> _].
    + split; [by left|]. intros [H|(t' & Heq & _)]; [done|].
      apply app_inj_tail in Heq as [_ ->]. done.
Qed.

Lemma match_coincide (t : str) :
  bool_ (match_ compile_identificador t) = coincide_patron t.
Proof.
  apply eq_true_iff_eq. rewrite coincide_patron_spec.
  rewrite <- (es_identificador_caracterizacion ∅ ∅ t).
  rewrite es_identificador_eq.
  cbn [estado self analizador patron_identificador].
  split; [by intros -> | by intros [= ->]].
Qed.

(** C1: [clasificar_token] follows the three ordered steps, for every table
    and every token, on an analyser with the pattern of the constructor. A
    key of the table gets the kind the table records; otherwise a token that
    matches the identifier pattern ^[a-z][a-z0-9]*$ gets IDENTIFICADOR;
    otherwise the token gets ERROR_LEXICO. The lexeme returned is always the
    token itself. Matching the pattern is what [es_identificador] answers: a
    lowercase letter followed by lowercase letters and digits, before the
    final newline when the token has one. *)
Theorem clasificar_token_tres_pasos (d fs : gmap str str) (t : str) :
  bool_ (match_ compile_identificador t) = coincide_patron t ∧
  es_identificador t (estado d fs) = (Ok (coincide_patron t), estado d fs) ∧
  clasificar_token t (estado d fs) =
    (Ok (match d !! t with
         | Some tipo => tipo
         | None =>
             if coincide_patron t then IDENTIFICADOR else ERROR_LEXICO
         end, t), estado d fs) ∧
  (last t ≠ Some LF → coincide_patron t = identificador_valido t).
Proof.
  split; [apply match_coincide|]. split.
  { rewrite es_identificador_eq.
    cbn [estado self analizador patron_identificador].
    by rewrite match_coincide. }
  split.
  { rewrite clasificar_token_eq.
    cbn [estado self analizador palabras_clave patron_identificador].
    by rewrite match_coincide. }
  intros Hult. apply eq_true_iff_eq. rewrite coincide_patron_spec. split.
  - intros [H|(t' & -> & _)]; [done|]. by rewrite last_snoc in Hult.
  - by left.
Qed.

(** C2: [clasificar_token] is total. For every state and every string it
    returns, without raising, a pair whose lexeme is the token and whose
    kind comes from exactly one of the three steps; the empty string, a
    string of digits, a mixed-case string and punctuation are lexical
    errors for an empty table. *)
Theorem clasificar_token_total (st : Estado) (t : str) :
  (∃ tipo, clasificar_token t st = (Ok (tipo, t), st) ∧
     (por_tabla st t tipo ∨ por_patron st t tipo ∨ por_descarte st t tipo) ∧
     ¬ (por_tabla st t tipo ∧ por_patron st t tipo) ∧
     ¬ (por_tabla st t tipo ∧ por_descarte st t tipo) ∧
     ¬ (por_patron st t tipo ∧ por_descarte st t tipo)) ∧
  clasificar_token (lit "") (estado ∅ (archivos st))
    = (Ok (ERROR_LEXICO, lit ""), estado ∅ (archivos st)) ∧
  clasificar_token (lit "2024") (estado ∅ (archivos st))
    = (Ok (ERROR_LEXICO, lit "2024"), estado ∅ (archivos st)) ∧
  clasificar_token (lit "aBc") (estado ∅ (archivos st))
    = (Ok (ERROR_LEXICO, lit "aBc"), estado ∅ (archivos st)) ∧
  clasificar_token (lit "!?;") (estado ∅ (archivos st))
    = (Ok (ERROR_LEXICO, lit "!?;"), estado ∅ (archivos st)).
Proof.
  split; [|by rewrite !clasificar_token_eq].
  unfold por_tabla, por_patron, por_descarte.
  rewrite clasificar_token_eq, es_identificador_eq.
  destruct (palabras_clave (self st) !! t) as [tipo|] eqn:Ht.
  - exists tipo. split; [done|]. split; [by left|].
    split; [|split]; intros [? [? ?]]; congruence.
  - destruct (bool_ (match_ (patron_identificador (self st)) t)) eqn:Hb.
    + exists IDENTIFICADOR. split; [done|]. split; [by right; left|].
      split; [|split]; [intros [? _]; congruence .. |].
      intros [_ (_ & ? & _)]. congruence.
    + exists ERROR_LEXICO. split; [done|]. split; [by right; right|].
      split; [|split]; [intros [? _]; congruence .. |].
      intros [(_ & ? & _) _]. congruence.
Qed.

(** C3, at the input where the code leaves the rule: the pattern accepts
    the letter a followed by a newline, which is not a lowercase letter
    followed by lowercase letters or digits. On every string that does not
    end with a newline the answer is the one of the rule. *)
Theorem es_identificador_acepta_salto_final (d fs : gmap str str) :
  es_identificador (lit "a" ++ [LF]) (estado d fs) = (Ok true, estado d fs) ∧
  identificador_valido (lit "a" ++ [LF]) = false ∧
  (∀ t, last t ≠ Some LF →
        es_identificador t (estado d fs)
        = (Ok (identificador_valido t), estado d fs)).
Proof.
  split; [reflexivity|]. split; [reflexivity|].
  intros t Hult. by apply es_identificador_sin_salto.
Qed.

(** C4: a lexeme of the table gets the kind the table records, whatever the
    compiled pattern is, so the identifier check has no part in it. *)
Theorem palabra_clave_precede (st : Estado) (t tipo : str) (p : Pattern) :
  palabras_clave (self st) !! t = Some tipo →
  clasificar_token t (con_patron p st) = (Ok (tipo, t), con_patron p st).
Proof.
  intros Ht. rewrite clasificar_token_eq. cbn [con_patron self palabras_clave].
  by rewrite Ht.
Qed.

Lemma palabra_clave_precede_if :
  es_identificador (lit "if") (estado tabla_if ∅)
    = (Ok true, estado tabla_if ∅) ∧
  clasificar_token (lit "if") (con_patron compile_identificador (estado tabla_if ∅))
    = (Ok (lit "PALABRA_RESERVADA", lit "if"),
       con_patron compile_identificador (estado tabla_if ∅)).
Proof.
  split; [reflexivity|].
  apply (palabra_clave_precede (estado tabla_if ∅) (lit "if")
           (lit "PALABRA_RESERVADA") compile_identificador).
  vm_compute. reflexivity.
Defined.

(** C8: two successive calls of [clasificar_token] on the same token return
    the same result, and the result depends on the object only, not on the
    files. *)
Theorem clasificar_token_determinista
    (st : Estado) (t : str) (fs : gmap str str) :
  (clasificar_token t (clasificar_token t st).2).1 = (clasificar_token t st).1 ∧
  (clasificar_token t {| self := self st; archivos := fs |}).1
    = (clasificar_token t st).1.
Proof. by rewrite !clasificar_token_eq. Qed.

(** C9: [clasificar_token] and [es_identificador] leave the state as it was:
    the table, the compiled pattern, and the files too. *)
Theorem clasificar_token_no_muta (st : Estado) (t : str) :
  (clasificar_token t st).2 = st ∧
  (es_identificador t st).2 = st ∧
  palabras_clave (self (clasificar_token t st).2) = palabras_clave (self st) ∧
  patron_identificador (self (clasificar_token t st).2)
    = patron_identificador (self st) ∧
  palabras_clave (self (es_identificador t st).2) = palabras_clave (self st) ∧
  patron_identificador (self (es_identificador t st).2)
    = patron_identificador (self st).
Proof. by rewrite clasificar_token_eq, es_identificador_eq. Qed.

(** C10, as stated, fails: the letter a followed by a newline
    is accepted, and followed by two newlines it is not. *)
Lemma salto_tras_salto_rechazado :
  ¬ (∀ s : str,
       es_identificador s (estado ∅ ∅) = (Ok true, estado ∅ ∅) →
       es_identificador (s ++ [LF]) (estado ∅ ∅) = (Ok true, estado ∅ ∅)).
Proof.
  intros H. specialize (H (lit "a" ++ [LF]) eq_refl). vm_compute in H.
  discriminate.
Qed.

(** C10, amended: a string accepted by [es_identificador] that does not end
    with a newline is still accepted with one newline added, and when the
    table does not hold that token it is classified IDENTIFICADOR with the
    newline in its lexeme. *)
Theorem es_identificador_salto_anadido (d fs : gmap str str) (s : str) :
  es_identificador s (estado d fs) = (Ok true, estado d fs) →
  last s ≠ Some LF →
  d !! (s ++ [LF]) = None →
  es_identificador (s ++ [LF]) (estado d fs) = (Ok true, estado d fs) ∧
  clasificar_token (s ++ [LF]) (estado d fs)
    = (Ok (IDENTIFICADOR, s ++ [LF]), estado d fs).
Proof.
  intros Hs Hult Hd.
  assert (Hid : es_identificador (s ++ [LF]) (estado d fs)
                = (Ok true, estado d fs)).
  { apply es_identificador_caracterizacion. right. exists s. split; [done|].
    apply es_identificador_caracterizacion in Hs as [Hs | (s' & -> & _)];
      [done|]. by rewrite last_snoc in Hult. }
  split; [done|]. rewrite clasificar_token_eq.
  cbn [estado self analizador palabras_clave]. rewrite Hd.
  rewrite es_identificador_eq in Hid.
  cbn [estado self analizador patron_identificador] in *.
  by inversion Hid as [Hb]; rewrite !Hb.
Qed.

Lemma es_identificador_salto_anadido_abc :
  es_identificador (lit "abc" ++ [LF]) (estado ∅ ∅) = (Ok true, estado ∅ ∅) ∧
  clasificar_token (lit "abc" ++ [LF]) (estado ∅ ∅)
    = (Ok (IDENTIFICADOR, lit "abc" ++ [LF]), estado ∅ ∅).
Proof.
  apply (es_identificador_salto_anadido ∅ ∅ (lit "abc")).
  - reflexivity.
  - vm_compute. discriminate.
  - reflexivity.
Defined.

End clasificacion.

(** ** Loading the dictionary *)

Section diccionario.
Import Py Re Analizador Spec Aux Ejemplos.

Lemma con_tabla_misma (st : Estado) : con_tabla (palabras_clave (self st)) st = st.
Proof. by destruct st as [[d p] fs]. Qed.

Lemma con_tabla_con_tabla (d d' : gmap str str) (st : Estado) :
  con_tabla d (con_tabla d' st) = con_tabla d st.
Proof. reflexivity. Qed.

(** A line that is not well formed changes nothing; a well-formed line sets
    the kind of its lexeme; neither raises. *)
Lemma cargar_linea_eq (st : Estado) (linea : str) :
  cargar_linea linea st =
    (Ok (), match entrada_de linea with
            | Some (lexema, tipo_token) =>
                con_tabla (<[lexema := tipo_token]> (palabras_clave (self st))) st
            | None => st
            end).
Proof.
  unfold cargar_linea, entrada_de.
  destruct (truthy (strip linea)) eqn:Hv.
  - rewrite split_strip.
    destruct (split linea) as [|a [|b [|c partes]]]; reflexivity.
  - by rewrite (strip_vacia _ Hv).
Qed.

Lemma for_cargar_linea (ls : list str) :
  ∀ st, for_ ls cargar_linea st =
          (Ok (), con_tabla (insertar (palabras_clave (self st))
                               (omap entrada_de ls)) st).
Proof.
  induction ls as [|linea ls IH]; intros st.
  - simpl. unfold ret. by rewrite con_tabla_misma.
  - cbn [for_]. unfold mbind, M_bind. rewrite cargar_linea_eq.
    cbn [omap list_omap]. destruct (entrada_de linea) as [[k v]|].
    + by rewrite IH.
    + by rewrite IH.
Qed.

Lemma cargar_diccionario_eq (st : Estado) (archivo texto : str) :
  archivos st !! archivo = Some texto →
  cargar_diccionario archivo st =
    (Ok (), con_tabla (insertar (palabras_clave (self st)) (entradas texto)) st).
Proof.
  intros Hf. unfold cargar_diccionario, try_except, mbind, M_bind, open_r.
  rewrite Hf. by rewrite for_cargar_linea.
Qed.

Lemma cargar_diccionario_sin_archivo (st : Estado) (archivo : str) :
  archivos st !! archivo = None →
  cargar_diccionario archivo st = (Raise (FileNotFoundError archivo), st).
Proof.
  intros Hf. unfold cargar_diccionario, try_except, mbind, M_bind, open_r.
  by rewrite Hf.
Qed.

Lemma init_eq (archivo texto : str) (fs : gmap str str) :
  fs !! archivo = Some texto →
  init archivo fs = (Ok (analizador (insertar ∅ (entradas texto))), fs).
Proof.
  intros Hf. unfold init. by rewrite (cargar_diccionario_eq _ _ texto).
Qed.

Lemma insertar_snoc (d : gmap str str) (es : list (str * str)) (e : str * str) :
  insertar d (es ++ [e]) = <[e.1 := e.2]> (insertar d es).
Proof. unfold insertar. by rewrite foldl_app. Qed.

Lemma insertar_ausente (es : list (str * str)) (k : str) :
  k ∉ es.*1 → ∀ d, insertar d es !! k = d !! k.
Proof.
  induction es as [|[k' v'] es IH]; intros Hk d; [done|].
  cbn in Hk. apply not_elem_of_cons in Hk as [Hne Hk].
  cbn. rewrite (IH Hk). by rewrite lookup_insert_ne.
Qed.

Lemma insertar_ultima (antes despues : list (str * str)) (k v : str)
    (d : gmap str str) :
  k ∉ despues.*1 →
  insertar d (antes ++ (k, v) :: despues) !! k = Some v.
Proof.
  intros Hk. unfold insertar. rewrite foldl_app. cbn [foldl].
  change (insertar (<[k := v]> (insertar d antes)) despues !! k = Some v).
  rewrite (insertar_ausente _ _ Hk). apply lookup_insert_eq.
Qed.

Lemma dom_insertar (es : list (str * str)) :
  ∀ d, dom (insertar d es) = dom d ∪ list_to_set es.*1.
Proof.
  induction es as [|[k v] es IH]; intros d.
  - cbn. by rewrite (right_id_L ∅ (∪)).
  - cbn. rewrite IH, dom_insert_L.
    by rewrite (comm_L (∪) {[k]} (dom d)), <- (assoc_L (∪)).
Qed.

Lemma size_insertar_le (es : list (str * str)) :
  ∀ d, (size (insertar d es) ≤ size d + length es)%nat.
Proof.
  induction es as [|[k v] es IH]; intros d; [cbn; lia|].
  cbn. etransitivity; [apply IH|]. rewrite map_size_insert.
  destruct (d !! k); cbn; lia.
Qed.

Lemma size_insertar_NoDup (es : list (str * str)) :
  NoDup es.*1 →
  ∀ d, (∀ k, k ∈ es.*1 → d !! k = None) →
       size (insertar d es) = (size d + length es)%nat.
Proof.
  induction es as [|[k v] es IH]; intros Hnd d Hd; [cbn; lia|].
  cbn in Hnd. apply NoDup_cons in Hnd as [Hk Hnd].
  cbn. rewrite (IH Hnd).
  - rewrite map_size_insert, (Hd k) by (cbn; left). cbn. lia.
  - intros k' Hk'. rewrite lookup_insert_ne; [|by intros ->].
    apply Hd. cbn. by right.
Qed.

Lemma size_list_to_set_remove_dups (ks : list str) :
  size (list_to_set ks : gset str) = length (remove_dups ks).
Proof.
  rewrite <- (size_list_to_set (C := gset str) (remove_dups ks))
    by apply NoDup_remove_dups.
  f_equal. apply set_eq. intros k.
  by rewrite !elem_of_list_to_set, elem_of_remove_dups.
Qed.

Lemma length_entradas (ls : list str) :
  length (omap entrada_de ls) = length (List.filter bien_formada ls).
Proof.
  induction ls as [|l ls IH]; [done|].
  cbn [omap list_omap List.filter].
  unfold entrada_de at 1, bien_formada at 1.
  destruct (split l) as [|a [|b [|c partes]]]; cbn [length Nat.eqb];
    by rewrite ?IH.
Qed.

End diccionario.

(** ** The claims about the dictionary *)

Section tabla.
Import Py Re Analizador Spec Aux Ejemplos.

(** C6: the entries of the dictionary are inserted in the order of its
    lines, a later kind over an earlier one for the same lexeme, so a lexeme
    has the kind of its last entry; the entries x A, x B give x the kind
    B. *)
Theorem cargar_diccionario_ultima_gana (st : Estado) (archivo texto : str)
    (antes despues : list (str * str)) (lexema tipo : str) :
  archivos st !! archivo = Some texto →
  entradas texto = antes ++ (lexema, tipo) :: despues →
  lexema ∉ despues.*1 →
  cargar_diccionario archivo st =
    (Ok (), con_tabla (insertar (palabras_clave (self st)) (entradas texto)) st) ∧
  (∀ es e, insertar (palabras_clave (self st)) (es ++ [e])
           = <[e.1 := e.2]> (insertar (palabras_clave (self st)) es)) ∧
  palabras_clave (self (cargar_diccionario archivo st).2) !! lexema = Some tipo ∧
  insertar ∅ [(lit "x", lit "A"); (lit "x", lit "B")] !! lit "x" = Some (lit "B").
Proof.
  intros Hf Hes Hult. rewrite (cargar_diccionario_eq _ _ _ Hf).
  split; [done|]. split; [intros es e; apply insertar_snoc|].
  split; [|reflexivity].
  cbn [snd con_tabla self palabras_clave]. rewrite Hes.
  by apply insertar_ultima.
Qed.

Lemma cargar_diccionario_ultima_gana_xx :
  palabras_clave
    (self (cargar_diccionario ruta_diccionario
             (estado ∅ {[ ruta_diccionario := texto_xx ]})).2) !! lit "x"
  = Some (lit "B").
Proof.
  refine (proj1 (proj2 (proj2
    (cargar_diccionario_ultima_gana
       (estado ∅ {[ ruta_diccionario := texto_xx ]}) ruta_diccionario texto_xx
       [(lit "x", lit "A")] [] (lit "x") (lit "B") _ _ _)))).
  - vm_compute. reflexivity.
  - vm_compute. reflexivity.
  - cbn. apply not_elem_of_nil.
Defined.

(** C7, as stated, fails: two well-formed lines for the same
    lexeme leave a table of one entry. *)
Lemma tamano_con_lexema_repetido :
  ∃ a, init ruta_diccionario {[ ruta_diccionario := texto_xx ]}
       = (Ok a, {[ ruta_diccionario := texto_xx ]}) ∧
       size (palabras_clave a) = 1%nat ∧
       lineas_bien_formadas texto_xx = 2%nat ∧
       size (palabras_clave a) ≠ lineas_bien_formadas texto_xx.
Proof.
  exists (analizador {[ lit "x" := lit "B" ]}).
  split; [by vm_compute|]. split; [by vm_compute|].
  split; [by vm_compute|]. by vm_compute.
Qed.

(** C7, amended: a line that does not split into exactly two fields is
    skipped and the load goes on; the table built by the constructor holds
    exactly the lexemes of the well-formed lines, so its size is the number
    of distinct lexemes among them, at most the number of well-formed lines,
    and equal to it when no lexeme is repeated. *)
Theorem cargar_diccionario_omite_mal_formadas
    (archivo texto : str) (fs : gmap str str) :
  fs !! archivo = Some texto →
  (∀ st linea, bien_formada linea = false →
               cargar_linea linea st = (Ok (), st)) ∧
  ∃ a, init archivo fs = (Ok a, fs) ∧
       palabras_clave a = insertar ∅ (entradas texto) ∧
       length (entradas texto) = lineas_bien_formadas texto ∧
       dom (palabras_clave a) = list_to_set (entradas texto).*1 ∧
       size (palabras_clave a) = length (remove_dups (entradas texto).*1) ∧
       (size (palabras_clave a) ≤ lineas_bien_formadas texto)%nat ∧
       (NoDup (entradas texto).*1 →
        size (palabras_clave a) = lineas_bien_formadas texto).
Proof.
  intros Hf. split.
  { intros st linea Hmal. rewrite cargar_linea_eq.
    unfold bien_formada in Hmal. unfold entrada_de.
    by destruct (split linea) as [|a [|b [|c partes]]]. }
  exists (analizador (insertar ∅ (entradas texto))).
  assert (Hn : length (entradas texto) = lineas_bien_formadas texto)
    by apply length_entradas.
  cbn [analizador palabras_clave]. rewrite <- Hn.
  split; [by apply init_eq|]. split; [done|]. split; [done|].
  assert (Hdom : dom (insertar ∅ (entradas texto))
                 = list_to_set (entradas texto).*1).
  { by rewrite dom_insertar, dom_empty_L, (left_id_L ∅ (∪)). }
  split; [done|]. split.
  { by rewrite <- size_dom, Hdom, size_list_to_set_remove_dups. }
  split.
  { etransitivity; [apply size_insertar_le|]. by rewrite map_size_empty. }
  intros Hnd. rewrite size_insertar_NoDup; [by rewrite map_size_empty|done|].
  intros k _. apply lookup_empty.
Qed.

Lemma cargar_diccionario_omite_mal_formadas_mixto :
  ∃ a, init ruta_diccionario {[ ruta_diccionario := texto_mixto ]}
       = (Ok a, {[ ruta_diccionario := texto_mixto ]}) ∧
       size (palabras_clave a) = 2%nat ∧
       length (lineas (universal_newlines texto_mixto)) = 5%nat.
Proof.
  destruct (cargar_diccionario_omite_mal_formadas
              ruta_diccionario texto_mixto {[ ruta_diccionario := texto_mixto ]})
    as (_ & a & Hinit & _ & _ & _ & _ & _ & Hnd).
  - vm_compute. reflexivity.
  - exists a. split; [exact Hinit|]. split; [|vm_compute; reflexivity].
    rewrite Hnd; [vm_compute; reflexivity|].
    apply (bool_decide_unpack _). vm_compute. exact I.
Defined.

End tabla.

(** ** The analysis of a text *)

Section analisis.
Import Py Re Analizador Spec Aux Ejemplos.

Lemma analizar_palabras_acumula (palabras : list str) (st : Estado) :
  ∀ tokens, ∃ nuevos,
    analizar_palabras tokens palabras st = (Ok (tokens ++ nuevos), st) ∧
    Forall2 (λ palabra token, clasificar_token palabra st = (Ok token, st))
      palabras nuevos.
Proof.
  induction palabras as [|palabra palabras IH]; intros tokens.
  - exists []. split; [|constructor]. simpl. unfold ret. by rewrite app_nil_r.
  - cbn [analizar_palabras]. unfold mbind, M_bind.
    pose proof (clasificar_token_eq st palabra) as Hc. rewrite Hc.
    destruct (IH (tokens ++ [(match palabras_clave (self st) !! palabra with
                              | Some tipo => tipo
                              | None =>
                                  if bool_ (match_ (patron_identificador (self st))
                                              palabra)
                                  then IDENTIFICADOR else ERROR_LEXICO
                              end, palabra)])) as (nuevos & Heq & Hall).
    eexists (_ :: nuevos). split.
    + rewrite Heq. by rewrite <- app_assoc.
    + by constructor.
Qed.

(** C5: the results of the analysis are the classifications of the words, in
    the order of the words: as many results as words, the i-th result being
    what [clasificar_token] returns for the i-th word; the words if, x1, 1x,
    while give the four results of the specification. *)
Theorem analizar_palabras_en_orden (st : Estado) (palabras : list str) :
  (∃ tokens,
     analizar_palabras [] palabras st = (Ok tokens, st) ∧
     length tokens = length palabras ∧
     Forall2 (λ palabra token, clasificar_token palabra st = (Ok token, st))
       palabras tokens ∧
     (∀ i palabra, palabras !! i = Some palabra →
        ∃ token, tokens !! i = Some token ∧
                 clasificar_token palabra st = (Ok token, st))) ∧
  analizar_palabras [] [lit "if"; lit "x1"; lit "1x"; lit "while"]
    (estado tabla_kw (archivos st))
  = (Ok [(lit "KW_IF", lit "if"); (IDENTIFICADOR, lit "x1");
         (ERROR_LEXICO, lit "1x"); (lit "KW_WHILE", lit "while")],
     estado tabla_kw (archivos st)).
Proof.
  split; [|reflexivity].
  destruct (analizar_palabras_acumula palabras st []) as (tokens & Heq & Hall).
  cbn [app] in Heq. exists tokens. split; [done|].
  split; [symmetry; by eapply Forall2_length|]. split; [done|].
  intros i palabra Hi.
  destruct (Forall2_lookup_l _ _ _ _ _ Hall Hi) as (token & Ht & Hc).
  by exists token.
Qed.

End analisis.

(** ** Fields, lines and blank text *)

Section campos.
Import Py Re Analizador Spec Aux Ejemplos Enunciados.

Lemma blanco_forallb (s : str) : blanco s ↔ forallb isspace s = true.
Proof.
  unfold blanco. induction s as [|c s IH]; [by split; [|constructor]|].
  simpl. rewrite Forall_cons, andb_true_iff. by rewrite IH.
Qed.

Lemma split_desde_palabra (w : str) :
  sin_espacios w →
  ∀ acc resto, split_desde acc (w ++ resto) = split_desde (acc ++ w) resto.
Proof.
  induction 1 as [|c w Hc Hw IH]; intros acc resto.
  - by rewrite app_nil_r.
  - simpl. rewrite Hc, IH. by rewrite <- app_assoc.
Qed.

Lemma split_desde_blanco (esp : str) :
  blanco esp → ∀ resto, split_desde [] (esp ++ resto) = split_desde [] resto.
Proof.
  induction 1 as [|c esp Hc Hesp IH]; intros resto; [done|].
  simpl. by rewrite Hc.
Qed.

Lemma split_desde_corte (acc esp resto : str) :
  acc ≠ [] → esp ≠ [] → blanco esp →
  split_desde acc (esp ++ resto) = acc :: split_desde [] resto.
Proof.
  intros Hacc Hne Hesp. destruct Hesp as [|c esp Hc Hesp]; [done|].
  simpl. rewrite Hc. destruct acc; [done|]. simpl.
  by rewrite split_desde_blanco.
Qed.

Lemma split_desde_no_vacias (s : str) :
  ∀ acc, Forall (λ p, p ≠ []) (split_desde acc s).
Proof.
  induction s as [|c s IH]; intros acc; simpl.
  - destruct acc; by repeat constructor.
  - destruct (isspace c); [|by apply IH].
    destruct acc; simpl; [by apply IH|]. constructor; [done|by apply IH].
Qed.

(** Every word of [split] is a field. *)
Lemma split_campos (s : str) : Forall campo (split s).
Proof.
  apply Forall_and. split.
  - apply split_desde_no_vacias.
  - apply split_sin_espacios.
Qed.

(** Blank text has no word. *)
Lemma split_blanco (s : str) : blanco s → split s = [].
Proof.
  intros Hs. unfold split.
  rewrite <- (app_nil_r s). by rewrite split_desde_blanco.
Qed.

(** Two fields, apart by whitespace and followed by whitespace or nothing,
    split into themselves. *)
Lemma split_dos_campos (k v e1 e2 : str) :
  campo k → campo v → e1 ≠ [] → blanco e1 → blanco e2 →
  split (k ++ e1 ++ v ++ e2) = [k; v].
Proof.
  intros [Hk Hks] [Hv Hvs] He1 Hb1 Hb2. unfold split.
  rewrite (split_desde_palabra _ Hks). cbn [app].
  rewrite (split_desde_corte _ _ _ Hk He1 Hb1).
  rewrite (split_desde_palabra _ Hvs). cbn [app]. f_equal.
  destruct Hb2 as [|c e2 Hc Hb2].
  - simpl. by destruct v.
  - rewrite <- (app_nil_r (c :: e2)).
    rewrite (split_desde_corte v (c :: e2) []); [done|done|done|].
    by constructor.
Qed.

Lemma universal_newlines_blanco (s : str) :
  blanco s → blanco (universal_newlines s).
Proof.
  unfold blanco. revert s.
  assert (H : ∀ n s, (length s ≤ n)%nat → Forall (λ c, isspace c = true) s →
              Forall (λ c, isspace c = true) (universal_newlines s)).
  { induction n as [|n IH]; intros s Hn Hs.
    - destruct s; [constructor|simpl in Hn; lia].
    - destruct Hs as [|c s Hc Hs]; [constructor|]. simpl in Hn. simpl.
      destruct (c =? CR).
      + constructor; [done|]. destruct Hs as [|d s Hd Hs]; [constructor|].
        simpl in Hn. destruct (d =? LF).
        * apply IH; [lia|done].
        * apply IH; [simpl; lia|by constructor].
      + constructor; [done|]. apply IH; [lia|done]. }
  intros s. by apply (H (length s)).
Qed.

Lemma universal_newlines_sin_CR (s : str) :
  Forall (λ c, c ≠ CR) s → universal_newlines s = s.
Proof.
  induction 1 as [|c s Hc Hs IH]; [done|]. simpl.
  destruct (N.eqb_spec c CR); [done|]. by rewrite IH.
Qed.

Lemma lineas_desde_linea (l : str) :
  Forall (λ c, c ≠ LF) l →
  ∀ acc resto,
    lineas_desde acc (l ++ LF :: resto) = (acc ++ l ++ [LF]) :: lineas_desde [] resto.
Proof.
  induction 1 as [|c l Hc Hl IH]; intros acc resto.
  - simpl. done.
  - simpl. destruct (N.eqb_spec c LF); [done|].
    rewrite IH. by rewrite <- app_assoc.
Qed.

(** Lines written one after the other, each closed by a newline, are read
    back one by one. *)
Lemma lineas_concat (ls : list str) :
  Forall (Forall (λ c, c ≠ LF)) ls →
  lineas (concat ((λ l, l ++ [LF]) <$> ls)) = (λ l, l ++ [LF]) <$> ls.
Proof.
  unfold lineas. induction 1 as [|l ls Hl Hls IH]; [done|].
  cbn [fmap list_fmap concat]. rewrite <- app_assoc. cbn [app].
  rewrite (lineas_desde_linea _ Hl). cbn [app]. by rewrite IH.
Qed.

Lemma sin_espacios_sin (p : str) (c : N) :
  isspace c = true → sin_espacios p → Forall (λ x, x ≠ c) p.
Proof.
  intros Hc Hp. eapply Forall_impl; [exact Hp|].
  intros x Hx ->. congruence.
Qed.

End campos.

(** ** Further properties of the dictionary loader *)

Section cargador.
Import Py Re Analizador Spec Aux Ejemplos Enunciados Casos.

Lemma insertar_presente (es : list (str * str)) (k : str) :
  k ∈ es.*1 → ∀ d d', insertar d es !! k = insertar d' es !! k.
Proof.
  induction es as [|[k' v'] es IH] using rev_ind; intros Hk d d'.
  - by apply elem_of_nil in Hk.
  - rewrite !insertar_snoc. cbn [fst snd].
    destruct (decide (k' = k)) as [->|Hne].
    + by rewrite !lookup_insert_eq.
    + rewrite !lookup_insert_ne by done. apply IH.
      rewrite fmap_app in Hk. apply elem_of_app in Hk as [Hk|Hk]; [done|].
      cbn in Hk. apply list_elem_of_singleton in Hk. congruence.
Qed.

Lemma insertar_insertar (es : list (str * str)) (d : gmap str str) :
  insertar (insertar d es) es = insertar d es.
Proof.
  apply map_eq. intros k. destruct (decide (k ∈ es.*1)) as [Hk|Hk].
  - by apply insertar_presente.
  - by rewrite (insertar_ausente es k Hk).
Qed.

Lemma insertar_lookup_Some (es : list (str * str)) (k v : str) :
  ∀ d, insertar d es !! k = Some v → (k, v) ∈ es ∨ d !! k = Some v.
Proof.
  induction es as [|[k' v'] es IH]; intros d H; [by right|].
  cbn in H. apply IH in H as [H|H].
  - left. by right.
  - destruct (decide (k' = k)) as [->|Hne].
    + rewrite lookup_insert_eq in H. injection H as ->. left. left.
    + rewrite lookup_insert_ne in H by done. by right.
Qed.

Lemma entrada_de_campos (linea k v : str) :
  entrada_de linea = Some (k, v) → campo k ∧ campo v.
Proof.
  unfold entrada_de. pose proof (split_campos linea) as H.
  destruct (split linea) as [|a [|b [|c partes]]]; try done.
  intros [= <- <-]. apply Forall_cons in H as [Ha H].
  by apply Forall_cons in H as [Hb _].
Qed.

Lemma entradas_campos (texto k v : str) :
  (k, v) ∈ entradas texto → campo k ∧ campo v.
Proof.
  unfold entradas. intros (linea & _ & H)%list_elem_of_omap.
  by eapply entrada_de_campos.
Qed.

Lemma split_margenes (e1 linea e2 : str) :
  blanco e1 → blanco e2 → split (e1 ++ linea ++ e2) = split linea.
Proof.
  intros H1 H2. unfold split. rewrite (split_desde_blanco _ H1).
  apply split_desde_app. by apply blanco_forallb.
Qed.

Lemma init_inv (archivo : str) (fs fs' : gmap str str) (a : AnalizadorLexico) :
  init archivo fs = (Ok a, fs') →
  ∃ texto, fs !! archivo = Some texto ∧ fs' = fs ∧
           a = analizador (insertar ∅ (entradas texto)).
Proof.
  intros H. destruct (fs !! archivo) as [texto|] eqn:Hf.
  - rewrite (init_eq _ _ _ Hf) in H. exists texto. by inversion H.
  - unfold init in H.
    rewrite cargar_diccionario_sin_archivo in H by done. discriminate.
Qed.



(** X2: a successful [cargar_diccionario] on an object that already has a
    table only adds and overwrites: it removes no lexeme, it leaves the kind
    of every lexeme that has no well-formed line in the file, and it changes
    neither the pattern nor the files. *)
Theorem cargar_diccionario_conserva (st : Estado) (archivo texto : str) :
  archivos st !! archivo = Some texto →
  ∃ st', cargar_diccionario archivo st = (Ok (), st') ∧
    archivos st' = archivos st ∧
    patron_identificador (self st') = patron_identificador (self st) ∧
    dom (palabras_clave (self st)) ⊆ dom (palabras_clave (self st')) ∧
    ∀ k, k ∉ (entradas texto).*1 →
         palabras_clave (self st') !! k = palabras_clave (self st) !! k.
Proof.
  intros Hf. eexists. split; [by apply cargar_diccionario_eq|].
  cbn [con_tabla self archivos palabras_clave patron_identificador].
  split; [done|]. split; [done|]. split.
  - rewrite dom_insertar. apply union_subseteq_l.
  - intros k Hk. by apply insertar_ausente.
Qed.

Lemma cargar_diccionario_conserva_ej :
  ∃ st', cargar_diccionario ruta_diccionario
           (estado tabla_if {[ ruta_diccionario := texto_xx ]}) = (Ok (), st') ∧
    palabras_clave (self st') !! lit "if" = Some (lit "PALABRA_RESERVADA").
Proof.
  destruct (cargar_diccionario_conserva
              (estado tabla_if {[ ruta_diccionario := texto_xx ]})
              ruta_diccionario texto_xx)
    as (st' & Hc & _ & _ & _ & Hk).
  - vm_compute. reflexivity.
  - exists st'. split; [exact Hc|]. rewrite Hk; [vm_compute; reflexivity|].
    apply (bool_decide_unpack _). vm_compute. exact I.
Defined.

(** X3: loading the same dictionary file a second time changes nothing: the
    second call returns as the first did and leaves the state the first
    left. *)
Theorem cargar_diccionario_dos_veces (st : Estado) (archivo texto : str) :
  archivos st !! archivo = Some texto →
  cargar_diccionario archivo (cargar_diccionario archivo st).2
  = cargar_diccionario archivo st.
Proof.
  intros Hf. rewrite (cargar_diccionario_eq st _ _ Hf). cbn [snd].
  rewrite (cargar_diccionario_eq _ _ texto) by done.
  cbn [con_tabla self archivos palabras_clave patron_identificador].
  by rewrite insertar_insertar.
Qed.

Lemma cargar_diccionario_dos_veces_ej :
  cargar_diccionario ruta_diccionario
    (cargar_diccionario ruta_diccionario
       (estado tabla_if {[ ruta_diccionario := texto_xx ]})).2
  = cargar_diccionario ruta_diccionario
      (estado tabla_if {[ ruta_diccionario := texto_xx ]}).
Proof.
  apply (cargar_diccionario_dos_veces
           (estado tabla_if {[ ruta_diccionario := texto_xx ]})
           ruta_diccionario texto_xx).
  vm_compute. reflexivity.
Defined.

(** X4: in the table of a constructed analyser every lexeme and every kind
    is a non-empty string without whitespace; so the empty string is no
    keyword, and the analyser classifies it ERROR_LEXICO. *)
Theorem tabla_de_campos (archivo : str) (fs fs' : gmap str str)
    (a : AnalizadorLexico) :
  init archivo fs = (Ok a, fs') →
  (∀ k v, palabras_clave a !! k = Some v → campo k ∧ campo v) ∧
  clasificar_token [] {| self := a; archivos := fs' |}
  = (Ok (ERROR_LEXICO, []), {| self := a; archivos := fs' |}).
Proof.
  intros (texto & Hf & -> & ->)%init_inv.
  assert (Hc : ∀ k v, insertar ∅ (entradas texto) !! k = Some v →
                      campo k ∧ campo v).
  { intros k v [H|H]%insertar_lookup_Some; [by eapply entradas_campos|].
    by rewrite lookup_empty in H. }
  split; [exact Hc|]. rewrite clasificar_token_eq.
  cbn [analizador self palabras_clave patron_identificador].
  destruct (insertar ∅ (entradas texto) !! []) as [v|] eqn:Hv; [|done].
  by destruct (Hc _ _ Hv) as [[? _] _].
Qed.

Lemma tabla_de_campos_ej :
  (∀ k v, palabras_clave (analizador tabla_kw) !! k = Some v →
          campo k ∧ campo v) ∧
  clasificar_token []
    {| self := analizador tabla_kw;
       archivos := {[ ruta_diccionario := texto_mixto ]} |}
  = (Ok (ERROR_LEXICO, []),
     {| self := analizador tabla_kw;
        archivos := {[ ruta_diccionario := texto_mixto ]} |}).
Proof.
  apply (tabla_de_campos ruta_diccionario
           {[ ruta_diccionario := texto_mixto ]}).
  vm_compute. reflexivity.
Defined.

(** X5: whitespace around a dictionary line does not count: a line with
    blank text before and after it loads what the line alone loads. *)
Theorem cargar_linea_margenes (st : Estado) (e1 linea e2 : str) :
  blanco e1 → blanco e2 →
  cargar_linea (e1 ++ linea ++ e2) st = cargar_linea linea st.
Proof.
  intros H1 H2. rewrite !cargar_linea_eq. unfold entrada_de.
  by rewrite split_margenes.
Qed.

Lemma cargar_linea_margenes_ej :
  cargar_linea ([SP; 9] ++ lit "if KW_IF" ++ [SP; LF]) (estado ∅ ∅)
  = cargar_linea (lit "if KW_IF") (estado ∅ ∅).
Proof.
  apply (cargar_linea_margenes (estado ∅ ∅) [SP; 9] (lit "if KW_IF") [SP; LF]).
  - apply blanco_forallb. reflexivity.
  - apply blanco_forallb. reflexivity.
Defined.

(** X6: a line of two fields makes the first a keyword of the second kind:
    after [cargar_linea] on a lexeme, whitespace, a kind and trailing
    whitespace, [clasificar_token] of the lexeme returns that kind. *)
Theorem linea_cargada_clasifica (st : Estado) (k v e1 e2 : str) :
  campo k → campo v → e1 ≠ [] → blanco e1 → blanco e2 →
  ∃ st', cargar_linea (k ++ e1 ++ v ++ e2) st = (Ok (), st') ∧
         clasificar_token k st' = (Ok (v, k), st').
Proof.
  intros Hk Hv He1 Hb1 Hb2. eexists. split.
  - rewrite cargar_linea_eq. unfold entrada_de.
    by rewrite (split_dos_campos k v e1 e2).
  - rewrite clasificar_token_eq. cbn [con_tabla self palabras_clave].
    by rewrite lookup_insert_eq.
Qed.

Lemma linea_cargada_clasifica_ej :
  ∃ st', cargar_linea (lit "while" ++ [9] ++ lit "KW_WHILE" ++ [LF])
           (estado tabla_if ∅) = (Ok (), st') ∧
         clasificar_token (lit "while") st'
         = (Ok (lit "KW_WHILE", lit "while"), st').
Proof.
  apply (linea_cargada_clasifica (estado tabla_if ∅)
           (lit "while") (lit "KW_WHILE") [9] [LF]).
  - split; [discriminate|]. by repeat constructor.
  - split; [discriminate|]. by repeat constructor.
  - discriminate.
  - apply blanco_forallb. reflexivity.
  - apply blanco_forallb. reflexivity.
Defined.

End cargador.

(** ** Writing the report *)

Section escritura.
Import Py Re Analizador Spec Aux Ejemplos Enunciados Casos.
Context (so : Entorno).

Lemma bind_ok {A B : Type} (m : M A) (k : A → M B) (st st' : Estado) (a : A) :
  m st = (Ok a, st') → (m ≫= k) st = k a st'.
Proof. intros H. unfold mbind, M_bind. by rewrite H. Qed.

Lemma bind_raise {A B : Type} (m : M A) (k : A → M B) (st st' : Estado)
    (e : exn) :
  m st = (Raise e, st') → (m ≫= k) st = (Raise e, st').
Proof. intros H. unfold mbind, M_bind. by rewrite H. Qed.

Lemma try_except_ok {A : Type} (m : M A) (h : exn → M A) (st st' : Estado)
    (a : A) :
  m st = (Ok a, st') → try_except m h st = (Ok a, st').
Proof. intros H. unfold try_except. by rewrite H. Qed.

Lemma try_except_raise {A : Type} (m : M A) (h : exn → M A)
    (st st' : Estado) (e : exn) :
  m st = (Raise e, st') → try_except m h st = h e st'.
Proof. intros H. unfold try_except. by rewrite H. Qed.

Lemma print_ok (mensaje : str) (st : Estado) :
  consola_fiable so → print so mensaje st = (Ok (), st).
Proof. intros Hc. unfold print. by rewrite Hc. Qed.

Lemma print_raise_ok (mensaje : str) (e : exn) (st : Estado) :
  consola_fiable so →
  (print so mensaje;; raise e) st = (@Raise () e, st).
Proof. intros Hc. erewrite bind_ok; [done|by apply print_ok]. Qed.

Lemma for_print_ok (tokens : list (str * str)) (st : Estado) :
  consola_fiable so →
  for_ tokens (λ '(tipo_token, lexema),
    print so (ljust 20 tipo_token ++ [SP] ++ ljust 20 lexema)) st
  = (Ok (), st).
Proof.
  intros Hc. induction tokens as [|[tipo lexema] tokens IH]; [done|].
  cbn [for_]. erewrite bind_ok; [exact IH|by apply print_ok].
Qed.

Lemma alias_refl (p : str) : alias so p p = true.
Proof. unfold alias. by rewrite bool_decide_eq_true_2. Qed.

Lemma alias_false_ne (p q : str) : alias so p q = false → p ≠ q.
Proof. intros H ->. by rewrite alias_refl in H. Qed.

Lemma lookup_poner_eq (p texto : str) (fs : gmap str str) :
  poner so p texto fs !! p = Some texto.
Proof. apply lookup_insert_eq. Qed.

Lemma lookup_poner_ne (p q texto : str) (fs : gmap str str) :
  p ≠ q →
  poner so p texto fs !! q
  = (λ v, if alias so p q then texto else v) <$> fs !! q.
Proof.
  intros Hne. unfold poner. rewrite lookup_insert_ne by done.
  rewrite map_lookup_imap. by destruct (fs !! q).
Qed.

Lemma lookup_poner_otro (p q texto : str) (fs : gmap str str) :
  alias so p q = false → poner so p texto fs !! q = fs !! q.
Proof.
  intros Hq. rewrite lookup_poner_ne by (by apply alias_false_ne).
  rewrite Hq. by destruct (fs !! q).
Qed.

Lemma lookup_poner_alias (p q texto v : str) (fs : gmap str str) :
  alias so p q = true → fs !! q = Some v →
  poner so p texto fs !! q = Some texto.
Proof.
  intros Hq Hv. destruct (decide (p = q)) as [->|Hne].
  - apply lookup_poner_eq.
  - rewrite lookup_poner_ne by done. by rewrite Hv, Hq.
Qed.

Lemma poner_poner (p texto texto' : str) (fs : gmap str str) :
  poner so p texto (poner so p texto' fs) = poner so p texto fs.
Proof.
  apply map_eq. intros q. destruct (decide (p = q)) as [->|Hne].
  - by rewrite !lookup_poner_eq.
  - rewrite !lookup_poner_ne by done.
    destruct (fs !! q); [|done]. cbn. by destruct (alias so p q).
Qed.

Lemma con_escrito_con_escrito (p texto texto' : str) (st : Estado) :
  con_escrito so p texto (con_escrito so p texto' st)
  = con_escrito so p texto st.
Proof. unfold con_escrito. cbn [self archivos]. by rewrite poner_poner. Qed.

Lemma write_con_escrito (p texto s : str) (st : Estado) :
  codificable s = true →
  write so p s (con_escrito so p texto st)
  = (Ok (), con_escrito so p (texto ++ s) st).
Proof.
  intros Hs. unfold write. rewrite Hs.
  change {| self := self (con_escrito so p texto st);
            archivos := poner so p
              (default [] (archivos (con_escrito so p texto st) !! p) ++ s)
              (archivos (con_escrito so p texto st)) |}
    with (con_escrito so p
            (default [] (archivos (con_escrito so p texto st) !! p) ++ s)
            (con_escrito so p texto st)).
  rewrite con_escrito_con_escrito. cbn [con_escrito archivos].
  by rewrite lookup_poner_eq.
Qed.

Lemma write_incodificable (p s : str) (st : Estado) :
  codificable s = false → write so p s st = (Raise UnicodeEncodeError, st).
Proof. intros Hs. unfold write. by rewrite Hs. Qed.

Lemma codificable_app (a b : str) :
  codificable (a ++ b) = codificable a && codificable b.
Proof. apply forallb_app. Qed.

Lemma codificable_ljust (n : nat) (s : str) :
  codificable (ljust n s) = codificable s.
Proof.
  unfold ljust. rewrite codificable_app.
  assert (H : codificable (replicate (n - length s) SP) = true).
  { induction (n - length s)%nat as [|m IH]; [done|]. simpl. by rewrite IH. }
  rewrite H. by rewrite andb_true_r.
Qed.

Lemma codificable_linea_de (token : str * str) :
  codificable (linea_de token) = codificable token.1 && codificable token.2.
Proof.
  unfold linea_de. rewrite !codificable_app, !codificable_ljust.
  cbn. by rewrite andb_true_r.
Qed.

Lemma escribible_linea_de (token : str * str) :
  escribible token ↔ codificable (linea_de token) = true.
Proof.
  unfold escribible. rewrite codificable_linea_de. by rewrite andb_true_iff.
Qed.

(** The loop that writes the lines: all of them, or those before the first
    that cannot be encoded. *)
Lemma for_write_ok (p : str) (tokens : list (str * str)) :
  Forall escribible tokens →
  ∀ texto st,
    for_ tokens (λ '(tipo_token, lexema),
      write so p (ljust 20 tipo_token ++ [SP] ++ ljust 20 lexema ++ [LF]))
      (con_escrito so p texto st)
    = (Ok (), con_escrito so p (texto ++ concat (linea_de <$> tokens)) st).
Proof.
  induction 1 as [|[tipo lexema] tokens Ht Hts IH]; intros texto st.
  - simpl. unfold ret. by rewrite app_nil_r.
  - cbn [for_]. erewrite bind_ok;
      [|apply write_con_escrito; by apply (escribible_linea_de (tipo, lexema))].
    rewrite IH. cbn [fmap list_fmap concat]. unfold linea_de.
    cbn [fst snd]. by rewrite <- !app_assoc.
Qed.

Lemma for_write_falla (p : str) (antes despues : list (str * str))
    (token : str * str) :
  Forall escribible antes → ¬ escribible token →
  ∀ texto st,
    for_ (antes ++ token :: despues) (λ '(tipo_token, lexema),
      write so p (ljust 20 tipo_token ++ [SP] ++ ljust 20 lexema ++ [LF]))
      (con_escrito so p texto st)
    = (Raise UnicodeEncodeError,
       con_escrito so p (texto ++ concat (linea_de <$> antes)) st).
Proof.
  intros Hantes Hno. induction Hantes as [|[tipo lexema] antes Ht Hts IH];
    intros texto st.
  - destruct token as [tipo lexema]. cbn [app for_ fmap list_fmap concat].
    rewrite app_nil_r. apply bind_raise, write_incodificable.
    apply not_true_is_false. intros H.
    by apply Hno, (escribible_linea_de (tipo, lexema)).
  - rewrite <- app_comm_cons. cbn [for_]. erewrite bind_ok;
      [|apply write_con_escrito; by apply (escribible_linea_de (tipo, lexema))].
    rewrite IH. cbn [fmap list_fmap concat]. unfold linea_de.
    cbn [fst snd]. by rewrite <- !app_assoc.
Qed.

Lemma open_w_ok (p : str) (st : Estado) :
  error_al_abrir so p = None →
  open_w so p st = (Ok (), con_escrito so p [] st).
Proof. intros H. unfold open_w. by rewrite H. Qed.

(** What [generar_salida] does when the file can be opened and every token
    can be encoded. *)
Lemma generar_salida_eq (st : Estado) (tokens : list (str * str)) (p : str) :
  consola_fiable so →
  error_al_abrir so p = None → Forall escribible tokens →
  generar_salida so tokens p st
  = (Ok (), con_escrito so p (informe tokens) st).
Proof.
  intros Hc Hp Ht. unfold generar_salida.
  erewrite try_except_ok; [done|].
  erewrite bind_ok; [|by apply open_w_ok].
  erewrite bind_ok; [|by apply write_con_escrito].
  erewrite bind_ok; [|by apply write_con_escrito].
  erewrite bind_ok; [|by apply (for_write_ok p tokens Ht)].
  erewrite bind_ok; [|by apply print_ok].
  erewrite bind_ok; [|by apply print_ok].
  erewrite bind_ok; [|by apply print_ok].
  erewrite bind_ok; [|by apply for_print_ok].
  rewrite print_ok by done. unfold informe. by rewrite <- !app_assoc.
Qed.

Lemma generar_salida_cerrado (st : Estado) (tokens : list (str * str))
    (p : str) (e : exn) :
  consola_fiable so →
  error_al_abrir so p = Some e →
  generar_salida so tokens p st = (Raise e, st).
Proof.
  intros Hc Hp. unfold generar_salida.
  erewrite try_except_raise; [by apply print_raise_ok|].
  apply bind_raise. unfold open_w. by rewrite Hp.
Qed.

Lemma generar_salida_parcial (st : Estado) (antes despues : list (str * str))
    (token : str * str) (p : str) :
  consola_fiable so →
  error_al_abrir so p = None → Forall escribible antes → ¬ escribible token →
  generar_salida so (antes ++ token :: despues) p st
  = (Raise UnicodeEncodeError, con_escrito so p (informe antes) st).
Proof.
  intros Hc Hp Ha Hno. unfold generar_salida.
  erewrite try_except_raise;
    [|erewrite bind_ok; [|by apply open_w_ok];
      erewrite bind_ok; [|by apply write_con_escrito];
      erewrite bind_ok; [|by apply write_con_escrito];
      apply bind_raise;
      by apply (for_write_falla p antes despues token Ha Hno)].
  rewrite print_raise_ok by done. unfold informe. by rewrite <- !app_assoc.
Qed.

Lemma escribible_dec (token : str * str) : {escribible token} + {¬ escribible token}.
Proof.
  unfold escribible.
  destruct (codificable token.1), (codificable token.2);
    (by left) || (right; by intros [? ?]).
Qed.

Lemma tokens_descompone (tokens : list (str * str)) :
  Forall escribible tokens ∨
  ∃ antes token despues,
    tokens = antes ++ token :: despues ∧
    Forall escribible antes ∧ ¬ escribible token.
Proof.
  induction tokens as [|t tokens IH]; [by left|].
  destruct (escribible_dec t) as [Ht|Ht].
  - destruct IH as [IH|(antes & token & despues & -> & Ha & Hno)].
    + left. by constructor.
    + right. exists (t :: antes), token, despues.
      split; [done|]. split; [by constructor|done].
  - right. by exists [], t, tokens.
Qed.

(** With the file open, the result of [generar_salida] and the text it
    leaves do not depend on the state it starts from. *)
Lemma generar_salida_forma (tokens : list (str * str)) (p : str) :
  consola_fiable so →
  error_al_abrir so p = None →
  ∃ r texto, ∀ st, generar_salida so tokens p st = (r, con_escrito so p texto st).
Proof.
  intros Hc Hp.
  destruct (tokens_descompone tokens)
    as [Ht|(antes & token & despues & -> & Ha & Hno)].
  - eexists _, _. intros st. by apply generar_salida_eq.
  - eexists _, _. intros st. by apply generar_salida_parcial.
Qed.

End escritura.

(** ** Further properties of the classification and of the analysis *)

Section informes.
Import Py Re Analizador Spec Aux Ejemplos Enunciados Casos.

Lemma clasificar_token_palabra (d fs : gmap str str) (texto palabra : str) :
  palabra ∈ split texto →
  clasificar_token palabra (estado d fs)
  = (Ok (clasificacion d palabra), estado d fs).
Proof.
  intros Hp. rewrite clasificar_token_eq.
  pose proof (es_identificador_en_palabras d fs texto palabra Hp) as He.
  rewrite es_identificador_eq in He.
  cbn [estado analizador self palabras_clave patron_identificador] in *.
  unfold clasificacion. by inversion He as [Hb]; rewrite !Hb.
Qed.

Lemma analizar_palabras_clasificacion (d fs : gmap str str) (texto : str)
    (palabras : list str) :
  Forall (λ p, p ∈ split texto) palabras →
  ∀ tokens, analizar_palabras tokens palabras (estado d fs)
            = (Ok (tokens ++ (clasificacion d <$> palabras)), estado d fs).
Proof.
  induction 1 as [|palabra palabras Hp Hps IH]; intros tokens.
  - simpl. unfold ret. by rewrite app_nil_r.
  - cbn [analizar_palabras]. unfold mbind, M_bind.
    rewrite (clasificar_token_palabra d fs texto palabra Hp).
    unfold clasificacion at 1. rewrite IH.
    cbn [fmap list_fmap]. by rewrite <- app_assoc.
Qed.

Lemma analizar_archivo_eq (so : Entorno) (d fs : gmap str str)
    (entrada salida texto : str) :
  consola_fiable so →
  error_al_leer so entrada = None → fs !! entrada = Some texto →
  analizar_archivo so entrada salida (estado d fs)
  = generar_salida so (clasificacion d <$> split (universal_newlines texto))
      salida (estado d fs).
Proof.
  intros Hc Hl Hf. unfold analizar_archivo.
  assert (Hr : read_all so entrada (estado d fs)
               = (Ok (universal_newlines texto), estado d fs)).
  { unfold read_all, open_r. rewrite Hl. cbn [estado archivos].
    by rewrite Hf. }
  assert (Ha : analizar_palabras [] (split (universal_newlines texto))
                 (estado d fs)
               = (Ok (clasificacion d <$> split (universal_newlines texto)),
                  estado d fs)).
  { rewrite (analizar_palabras_clasificacion d fs (universal_newlines texto));
      [done|by apply Forall_forall]. }
  destruct (generar_salida so
              (clasificacion d <$> split (universal_newlines texto))
              salida (estado d fs)) as [[[]|e] st'] eqn:Hg.
  - erewrite try_except_ok; [done|].
    erewrite bind_ok; [|exact Hr]. erewrite bind_ok; [|exact Ha].
    erewrite bind_ok; [|exact Hg]. erewrite bind_ok; [|by apply print_ok].
    by apply print_ok.
  - erewrite try_except_raise;
      [|erewrite bind_ok; [|exact Hr]; erewrite bind_ok; [|exact Ha];
        apply bind_raise; exact Hg].
    destruct e; by apply print_raise_ok.
Qed.

Lemma analizar_archivo_sin_lectura (so : Entorno) (st : Estado)
    (entrada salida : str) (e : exn) :
  consola_fiable so →
  read_all so entrada st = (Raise e, st) →
  analizar_archivo so entrada salida st = (Raise e, st).
Proof.
  intros Hc H. unfold analizar_archivo.
  erewrite try_except_raise; [|apply bind_raise; exact H].
  destruct e; by apply print_raise_ok.
Qed.

Lemma universal_newlines_Forall (P : N → Prop) (s : str) :
  P LF → Forall P s → Forall P (universal_newlines s).
Proof.
  intros HLF.
  assert (H : ∀ n s, (length s ≤ n)%nat → Forall P s →
              Forall P (universal_newlines s)).
  { clear s. induction n as [|n IH]; intros s Hn Hs.
    - destruct s; [constructor|simpl in Hn; lia].
    - destruct Hs as [|c s Hc Hs]; [constructor|]. simpl in Hn. simpl.
      destruct (c =? CR).
      + constructor; [done|]. destruct Hs as [|d s Hd Hs]; [constructor|].
        simpl in Hn. destruct (d =? LF).
        * apply IH; [lia|done].
        * apply IH; [simpl; lia|by constructor].
      + constructor; [done|]. apply IH; [lia|done]. }
  by apply (H (length s)).
Qed.

Lemma split_desde_Forall (P : N → Prop) (s : str) :
  Forall P s → ∀ acc, Forall P acc → Forall (Forall P) (split_desde acc s).
Proof.
  induction 1 as [|c s Hc Hs IH]; intros acc Hacc; simpl.
  - destruct (truthy acc); by repeat constructor.
  - destruct (isspace c).
    + destruct (truthy acc); [constructor; [done|]|]; by apply IH.
    + apply IH. apply Forall_app. by repeat constructor.
Qed.

Lemma codificable_Forall (s : str) :
  codificable s = true ↔
  Forall (λ c, negb ((55296 <=? c) && (c <=? 57343)) = true) s.
Proof.
  unfold codificable. induction s as [|c s IH]; [by split; [|constructor]|].
  simpl. rewrite Forall_cons, andb_true_iff. by rewrite IH.
Qed.

(** The results of the words of a text that can be encoded, with kinds that
    can be encoded, can be written. *)
Lemma clasificacion_escribible (d : gmap str str) (texto : str) :
  codificable texto = true →
  map_Forall (λ _ tipo, codificable tipo = true) d →
  Forall escribible (clasificacion d <$> split (universal_newlines texto)).
Proof.
  intros Ht Hd. apply Forall_fmap.
  assert (Hs : Forall (λ p, codificable p = true)
                 (split (universal_newlines texto))).
  { eapply Forall_impl;
      [apply split_desde_Forall; [|constructor];
       apply universal_newlines_Forall; [|by apply codificable_Forall];
       reflexivity|].
    intros p Hp. by apply codificable_Forall. }
  eapply Forall_impl; [exact Hs|]. intros p Hp.
  unfold escribible, clasificacion. cbn [fst snd]. split; [|done].
  destruct (d !! p) as [tipo|] eqn:Hk; [by apply (Hd p)|].
  by destruct (identificador_valido p).
Qed.

Lemma linea_de_cuerpo (token : str * str) :
  linea_de token = cuerpo_de token ++ [LF].
Proof. unfold linea_de, cuerpo_de. by rewrite <- !app_assoc. Qed.

Lemma informe_renglones (tokens : list (str * str)) :
  informe tokens
  = concat ((λ l, l ++ [LF]) <$> (cabecera :: regla :: (cuerpo_de <$> tokens))).
Proof.
  assert (Hc : concat (linea_de <$> tokens)
               = concat ((λ l, l ++ [LF]) <$> (cuerpo_de <$> tokens))).
  { induction tokens as [|t tokens IH]; [done|].
    cbn [fmap list_fmap concat]. by rewrite linea_de_cuerpo, IH. }
  unfold informe. cbn [fmap list_fmap concat]. rewrite Hc.
  unfold cabecera, regla. by rewrite <- !app_assoc.
Qed.

Lemma cuerpo_de_sin (c : N) (token : str * str) :
  isspace c = true → c ≠ SP →
  campo token.1 → campo token.2 → Forall (λ x, x ≠ c) (cuerpo_de token).
Proof.
  intros Hc Hsp [_ H1] [_ H2]. unfold cuerpo_de, ljust.
  repeat (apply Forall_app; split);
    try (by apply sin_espacios_sin);
    try (apply Forall_replicate; by intros ?);
    by repeat constructor.
Qed.

Lemma entrada_de_cuerpo (token : str * str) :
  campo token.1 → campo token.2 →
  entrada_de (cuerpo_de token ++ [LF]) = Some token.
Proof.
  intros H1 H2. unfold entrada_de, cuerpo_de, ljust.
  assert (Heq : ∀ k r1 v r2 : str,
            ((k ++ r1) ++ [SP] ++ v ++ r2) ++ [LF]
            = k ++ (r1 ++ [SP]) ++ v ++ (r2 ++ [LF]))
    by (intros; by rewrite <- !app_assoc).
  rewrite Heq.
  rewrite split_dos_campos; [by destruct token|done|done|..].
  - by destruct (replicate _ SP).
  - apply Forall_app. split; [by apply Forall_replicate|by repeat constructor].
  - apply Forall_app. split; [by apply Forall_replicate|by repeat constructor].
Qed.

Lemma informe_sin (c : N) (tokens : list (str * str)) :
  isspace c = true → c ≠ SP → c ≠ LF →
  Forall (λ t, campo t.1 ∧ campo t.2) tokens →
  Forall (λ x, x ≠ c) (informe tokens).
Proof.
  intros Hc Hsp Hlf Ht. unfold informe.
  assert (Hfijo : ∀ l, forallb (λ x, negb (isspace x) || (x =? SP) || (x =? LF)) l
                       = true → Forall (λ x, x ≠ c) l).
  { intros l Hl. apply Forall_forall. intros x Hx ->.
    rewrite forallb_forall in Hl. specialize (Hl c).
    rewrite <- list_elem_of_In in Hl. specialize (Hl Hx). rewrite Hc in Hl.
    cbn [negb orb] in Hl. apply orb_prop in Hl as [Hl|Hl];
      apply N.eqb_eq in Hl; done. }
  apply Forall_app. split; [by apply Hfijo|].
  apply Forall_app. split; [by apply Hfijo|].
  induction Ht as [|t tokens [H1 H2] Ht IH]; [constructor|].
  cbn [fmap list_fmap concat]. apply Forall_app. split; [|done].
  rewrite linea_de_cuerpo. apply Forall_app. split.
  - by apply cuerpo_de_sin.
  - by repeat constructor.
Qed.

End informes.

Section extras.
Import Py Re Analizador Spec Aux Ejemplos Enunciados Casos.

(** X7: [es_identificador] answers True exactly for a lowercase letter
    followed by lowercase letters and digits, with or without one newline
    after it; every other string, the empty one too, gets False. *)
Theorem es_identificador_exacto (d fs : gmap str str) (t : str) :
  (es_identificador t (estado d fs) = (Ok true, estado d fs) ↔
   identificador_valido t = true ∨
   ∃ t', t = t' ++ [LF] ∧ identificador_valido t' = true) ∧
  (es_identificador t (estado d fs) = (Ok false, estado d fs) ↔
   ¬ (identificador_valido t = true ∨
      ∃ t', t = t' ++ [LF] ∧ identificador_valido t' = true)).
Proof.
  pose proof (es_identificador_caracterizacion d fs t) as H.
  split; [exact H|]. rewrite <- H. rewrite es_identificador_eq.
  destruct (bool_ (match_ (patron_identificador (self (estado d fs))) t));
    split; try done; intros Hn; by destruct Hn.
Qed.

(** X8: on a word that [split] returns, as [analizar_archivo] gets them,
    [clasificar_token] gives the kind of the table for a keyword, and
    otherwise IDENTIFICADOR exactly for a lowercase letter followed by
    lowercase letters and digits, and ERROR_LEXICO for the rest. *)
Theorem clasificar_palabra_de_texto (d fs : gmap str str)
    (texto palabra : str) :
  palabra ∈ split texto →
  clasificar_token palabra (estado d fs)
  = (Ok (clasificacion d palabra), estado d fs).
Proof. apply clasificar_token_palabra. Qed.

Lemma clasificar_palabra_de_texto_ej :
  clasificar_token (lit "x1") (estado tabla_kw ∅)
  = (Ok (clasificacion tabla_kw (lit "x1")), estado tabla_kw ∅).
Proof.
  apply (clasificar_palabra_de_texto tabla_kw ∅ texto_entrada (lit "x1")).
  apply (bool_decide_unpack _). vm_compute. exact I.
Defined.

(** X9: when the console prints every message, the output path can be
    opened and every kind and lexeme can be encoded, [generar_salida]
    returns normally and replaces the file: the
    file, under every path that names it, holds the report of the tokens
    given, whatever it held before, so a second report takes the place of a
    first; the object and the files that the path does not name stay as
    they were. *)
Theorem generar_salida_sobrescribe (so : Entorno) (st : Estado)
    (tokens1 tokens2 : list (str * str)) (salida : str) :
  consola_fiable so →
  error_al_abrir so salida = None →
  Forall escribible tokens2 →
  generar_salida so tokens2 salida st
  = (Ok (), con_escrito so salida (informe tokens2) st) ∧
  generar_salida so tokens2 salida (generar_salida so tokens1 salida st).2
  = generar_salida so tokens2 salida st ∧
  self (generar_salida so tokens2 salida st).2 = self st ∧
  archivos (generar_salida so tokens2 salida st).2 !! salida
  = Some (informe tokens2) ∧
  (∀ otro texto, alias so salida otro = true →
     archivos st !! otro = Some texto →
     archivos (generar_salida so tokens2 salida st).2 !! otro
     = Some (informe tokens2)) ∧
  (∀ otro, alias so salida otro = false →
     archivos (generar_salida so tokens2 salida st).2 !! otro
     = archivos st !! otro).
Proof.
  intros Hc Hp Ht.
  destruct (generar_salida_forma so tokens1 salida Hc Hp) as (r & texto & H1).
  rewrite H1. cbn [snd].
  rewrite !(generar_salida_eq so _ tokens2 salida Hc Hp Ht).
  rewrite con_escrito_con_escrito. cbn [snd con_escrito self archivos].
  split; [done|]. split; [done|]. split; [done|].
  split; [by apply lookup_poner_eq|]. split.
  - intros otro v Ha Hv. by eapply lookup_poner_alias.
  - intros otro Ha. by apply lookup_poner_otro.
Qed.

Lemma generar_salida_sobrescribe_ej :
  generar_salida entorno_llano resultados ruta_salida
    (estado tabla_kw {[ lit "./tokens_salida.txt" := lit "antes" ]})
  = (Ok (),
     estado tabla_kw {[ lit "./tokens_salida.txt" := informe resultados;
                        ruta_salida := informe resultados ]}).
Proof.
  destruct (generar_salida_sobrescribe entorno_llano
              (estado tabla_kw {[ lit "./tokens_salida.txt" := lit "antes" ]})
              [] resultados ruta_salida) as [H _].
  - intros mensaje. reflexivity.
  - reflexivity.
  - repeat constructor.
  - rewrite H. vm_compute. reflexivity.
Defined.

(** X10: the report can be read back as a dictionary. When the kinds and
    lexemes are non-empty and without whitespace, as those of an analysis
    are, the well-formed lines of the report are the header pair and then
    the tokens, in order; the rule of dashes is no entry. *)
Theorem informe_se_lee_de_vuelta (tokens : list (str * str)) :
  Forall (λ t, campo t.1 ∧ campo t.2) tokens →
  entradas (informe tokens) = (lit "Token", lit "Lexema") :: tokens.
Proof.
  intros Ht. unfold entradas.
  rewrite universal_newlines_sin_CR by (by apply informe_sin).
  rewrite informe_renglones, lineas_concat.
  - cbn [fmap list_fmap omap list_omap].
    change (entrada_de (cabecera ++ [LF]))
      with (Some (lit "Token", lit "Lexema")).
    change (entrada_de (regla ++ [LF])) with (@None (str * str)).
    f_equal. induction Ht as [|t tokens [H1 H2] Ht IH]; [done|].
    cbn [fmap list_fmap omap list_omap].
    by rewrite entrada_de_cuerpo, IH.
  - constructor; [by apply (bool_decide_unpack _)|].
    constructor; [by apply (bool_decide_unpack _)|].
    apply Forall_fmap. eapply Forall_impl; [exact Ht|].
    intros t [H1 H2]. by apply cuerpo_de_sin.
Qed.

Lemma informe_se_lee_de_vuelta_ej :
  entradas (informe resultados) = (lit "Token", lit "Lexema") :: resultados.
Proof.
  apply (informe_se_lee_de_vuelta resultados).
  repeat constructor; discriminate.
Defined.

(** X11: [analizar_archivo] on an analyser as the constructor builds them,
    when the console prints every message, the input file can be read and
    has a text, the output path can be opened, and the text and the kinds of
    the table can be encoded. It
    returns normally, the table and the pattern are as before, and the
    output file holds the report of the classifications of the words of the
    text in order; the files that the output path does not name are
    unchanged. *)
Theorem analizar_archivo_resultado (so : Entorno) (d fs : gmap str str)
    (entrada salida texto : str) :
  consola_fiable so →
  error_al_leer so entrada = None →
  fs !! entrada = Some texto →
  error_al_abrir so salida = None →
  codificable texto = true →
  map_Forall (λ _ tipo, codificable tipo = true) d →
  analizar_archivo so entrada salida (estado d fs)
  = (Ok (), estado d (poner so salida
               (informe (clasificacion d
                           <$> split (universal_newlines texto))) fs)) ∧
  poner so salida
    (informe (clasificacion d <$> split (universal_newlines texto))) fs
    !! salida
  = Some (informe (clasificacion d <$> split (universal_newlines texto))) ∧
  (∀ otro, alias so salida otro = false →
     poner so salida
       (informe (clasificacion d <$> split (universal_newlines texto))) fs
       !! otro
     = fs !! otro).
Proof.
  intros Hc Hl Hf Hp Ht Hd.
  rewrite (analizar_archivo_eq so d fs entrada salida texto Hc Hl Hf).
  rewrite (generar_salida_eq so _ _ salida Hc Hp
             (clasificacion_escribible d texto Ht Hd)).
  split; [done|]. split; [by apply lookup_poner_eq|].
  intros otro Ha. by apply lookup_poner_otro.
Qed.

Lemma analizar_archivo_resultado_ej :
  analizar_archivo entorno_llano ruta_entrada ruta_salida
    (estado tabla_kw {[ ruta_entrada := texto_entrada ]})
  = (Ok (), estado tabla_kw {[ ruta_entrada := texto_entrada;
                               ruta_salida := informe resultados ]}).
Proof.
  destruct (analizar_archivo_resultado entorno_llano tabla_kw
              {[ ruta_entrada := texto_entrada ]}
              ruta_entrada ruta_salida texto_entrada) as [H _].
  - intros mensaje. reflexivity.
  - reflexivity.
  - vm_compute. reflexivity.
  - reflexivity.
  - reflexivity.
  - apply (bool_decide_unpack _). vm_compute. exact I.
  - rewrite H. vm_compute. reflexivity.
Defined.

(** X12: when the console prints every message and the output path does
    not name the input file, analysing a second time gives what the first
    time gave: the same result, normal or exceptional, and the same
    files. *)
Theorem analizar_archivo_dos_veces (so : Entorno) (d fs : gmap str str)
    (entrada salida : str) :
  consola_fiable so →
  alias so salida entrada = false →
  analizar_archivo so entrada salida
    (analizar_archivo so entrada salida (estado d fs)).2
  = analizar_archivo so entrada salida (estado d fs).
Proof.
  intros Hc Ha.
  destruct (error_al_leer so entrada) as [e|] eqn:Hl.
  { assert (H : analizar_archivo so entrada salida (estado d fs)
                = (Raise e, estado d fs)).
    { apply analizar_archivo_sin_lectura; [done|].
      unfold read_all. by rewrite Hl. }
    rewrite H. cbn [snd]. by rewrite H. }
  destruct (fs !! entrada) as [texto|] eqn:Hf.
  - rewrite (analizar_archivo_eq so d fs entrada salida texto Hc Hl Hf).
    destruct (error_al_abrir so salida) as [e|] eqn:Hp.
    + rewrite (generar_salida_cerrado so _ _ _ e Hc Hp). cbn [snd].
      rewrite (analizar_archivo_eq so d fs entrada salida texto Hc Hl Hf).
      by rewrite (generar_salida_cerrado so _ _ _ e Hc Hp).
    + destruct (generar_salida_forma so
                  (clasificacion d <$> split (universal_newlines texto))
                  salida Hc Hp) as (r & escrito & Hg).
      rewrite Hg. cbn [snd].
      change (con_escrito so salida escrito (estado d fs))
        with (estado d (poner so salida escrito fs)).
      rewrite (analizar_archivo_eq so d _ entrada salida texto Hc Hl)
        by (by rewrite lookup_poner_otro).
      rewrite Hg. unfold con_escrito. cbn [estado self archivos].
      by rewrite poner_poner.
  - assert (H : analizar_archivo so entrada salida (estado d fs)
                = (Raise (FileNotFoundError entrada), estado d fs)).
    { apply analizar_archivo_sin_lectura; [done|]. unfold read_all, open_r.
      rewrite Hl. cbn [estado archivos]. by rewrite Hf. }
    rewrite H. cbn [snd]. by rewrite H.
Qed.

Lemma analizar_archivo_dos_veces_ej :
  analizar_archivo entorno_llano ruta_entrada ruta_salida
    (analizar_archivo entorno_llano ruta_entrada ruta_salida
       (estado tabla_kw {[ ruta_entrada := texto_entrada ]})).2
  = analizar_archivo entorno_llano ruta_entrada ruta_salida
      (estado tabla_kw {[ ruta_entrada := texto_entrada ]}).
Proof.
  apply (analizar_archivo_dos_veces entorno_llano tabla_kw
           {[ ruta_entrada := texto_entrada ]} ruta_entrada ruta_salida).
  - intros mensaje. reflexivity.
  - vm_compute. reflexivity.
Defined.

(** X13: when the console prints every message, an input text of
    whitespace only, the empty text too, that can be read, with an output
    path that can be opened, is analysed without error and the report has
    the two header lines and no token. *)
Theorem analizar_archivo_en_blanco (so : Entorno) (d fs : gmap str str)
    (entrada salida texto : str) :
  consola_fiable so →
  error_al_leer so entrada = None →
  fs !! entrada = Some texto →
  blanco texto →
  error_al_abrir so salida = None →
  analizar_archivo so entrada salida (estado d fs)
  = (Ok (), estado d (poner so salida (informe []) fs)).
Proof.
  intros Hc Hl Hf Hb Hp.
  rewrite (analizar_archivo_eq so d fs entrada salida texto Hc Hl Hf).
  rewrite (split_blanco _ (universal_newlines_blanco _ Hb)).
  by rewrite (generar_salida_eq so _ [] salida Hc Hp).
Qed.

Lemma analizar_archivo_en_blanco_ej :
  analizar_archivo entorno_llano ruta_entrada ruta_salida
    (estado tabla_kw {[ ruta_entrada := texto_en_blanco ]})
  = (Ok (), estado tabla_kw
              (poner entorno_llano ruta_salida (informe [])
                 {[ ruta_entrada := texto_en_blanco ]})).
Proof.
  apply (analizar_archivo_en_blanco entorno_llano tabla_kw
           {[ ruta_entrada := texto_en_blanco ]}
           ruta_entrada ruta_salida texto_en_blanco).
  - intros mensaje. reflexivity.
  - reflexivity.
  - vm_compute. reflexivity.
  - apply blanco_forallb. reflexivity.
  - reflexivity.
Defined.

(** X14: a dictionary without a well-formed line, the empty file too, gives
    an analyser with an empty table, for which every word of a text is
    IDENTIFICADOR when it is a lowercase letter followed by lowercase
    letters and digits, and ERROR_LEXICO otherwise. *)
Theorem diccionario_sin_entradas (archivo texto : str) (fs : gmap str str) :
  fs !! archivo = Some texto →
  lineas_bien_formadas texto = 0%nat →
  init archivo fs = (Ok (analizador ∅), fs) ∧
  ∀ entrada palabra, palabra ∈ split entrada →
    clasificar_token palabra (estado ∅ fs)
    = (Ok (if identificador_valido palabra
           then IDENTIFICADOR else ERROR_LEXICO, palabra), estado ∅ fs).
Proof.
  intros Hf Hn. split.
  - rewrite (init_eq _ _ _ Hf).
    assert (He : entradas texto = []).
    { apply nil_length_inv. unfold entradas. rewrite length_entradas.
      exact Hn. }
    by rewrite He.
  - intros entrada palabra Hp.
    rewrite (clasificar_token_palabra ∅ fs entrada palabra Hp).
    unfold clasificacion. by rewrite lookup_empty.
Qed.

Lemma diccionario_sin_entradas_ej :
  init ruta_diccionario {[ ruta_diccionario := texto_sin_entradas ]}
  = (Ok (analizador ∅), {[ ruta_diccionario := texto_sin_entradas ]}) ∧
  ∀ entrada palabra, palabra ∈ split entrada →
    clasificar_token palabra
      (estado ∅ {[ ruta_diccionario := texto_sin_entradas ]})
    = (Ok (if identificador_valido palabra
           then IDENTIFICADOR else ERROR_LEXICO, palabra),
       estado ∅ {[ ruta_diccionario := texto_sin_entradas ]}).
Proof.
  apply (diccionario_sin_entradas ruta_diccionario texto_sin_entradas
           {[ ruta_diccionario := texto_sin_entradas ]}).
  - vm_compute. reflexivity.
  - vm_compute. reflexivity.
Defined.

(** X17: when the console prints every message and the output path cannot
    be opened for writing, as with the empty path, a directory or a
    directory that is not there, [generar_salida] raises the exception of
    [open] and no file is created, emptied or changed. *)
Theorem generar_salida_no_abre (so : Entorno) (st : Estado)
    (tokens : list (str * str)) (salida : str) (e : exn) :
  consola_fiable so →
  error_al_abrir so salida = Some e →
  generar_salida so tokens salida st = (Raise e, st).
Proof. apply generar_salida_cerrado. Qed.

Lemma generar_salida_no_abre_ej :
  generar_salida entorno_cerrado resultados ruta_salida
    (estado tabla_kw {[ ruta_salida := lit "antes" ]})
  = (Raise (PermissionError ruta_salida),
     estado tabla_kw {[ ruta_salida := lit "antes" ]}).
Proof.
  apply (generar_salida_no_abre entorno_cerrado
           (estado tabla_kw {[ ruta_salida := lit "antes" ]})
           resultados ruta_salida (PermissionError ruta_salida)).
  - intros mensaje. reflexivity.
  - reflexivity.
Defined.

(** X18: when the console prints every message and a kind or a lexeme
    cannot be encoded, as one with a lone surrogate, [generar_salida] raises
    UnicodeEncodeError and leaves a
    partial report: the two header lines and the lines of the tokens before
    the first one that cannot be encoded. *)
Theorem generar_salida_incodificable (so : Entorno) (st : Estado)
    (antes despues : list (str * str)) (token : str * str) (salida : str) :
  consola_fiable so →
  error_al_abrir so salida = None →
  Forall escribible antes →
  ¬ escribible token →
  generar_salida so (antes ++ token :: despues) salida st
  = (Raise UnicodeEncodeError, con_escrito so salida (informe antes) st).
Proof. apply generar_salida_parcial. Qed.

Lemma generar_salida_incodificable_ej :
  generar_salida entorno_llano
    ([(lit "KW_IF", lit "if")] ++ resultado_incodificable
       :: [(IDENTIFICADOR, lit "x1")])
    ruta_salida (estado tabla_kw ∅)
  = (Raise UnicodeEncodeError,
     con_escrito entorno_llano ruta_salida (informe [(lit "KW_IF", lit "if")])
       (estado tabla_kw ∅)).
Proof.
  apply (generar_salida_incodificable entorno_llano (estado tabla_kw ∅)
           [(lit "KW_IF", lit "if")] [(IDENTIFICADOR, lit "x1")]
           resultado_incodificable ruta_salida).
  - intros mensaje. reflexivity.
  - reflexivity.
  - repeat constructor.
  - intros [_ H]. vm_compute in H. discriminate.
Defined.

(** X19: when the console prints every message and the input file is not
    there, or is there and cannot be read or decoded, [analizar_archivo]
    raises the exception of the reading,
    FileNotFoundError for a missing file, and changes nothing: the output
    file is neither created nor emptied. *)
Theorem analizar_archivo_sin_entrada (so : Entorno) (st : Estado)
    (entrada salida : str) (e : exn) :
  consola_fiable so →
  error_al_leer so entrada = Some e ∨
  (error_al_leer so entrada = None ∧ archivos st !! entrada = None ∧
   e = FileNotFoundError entrada) →
  analizar_archivo so entrada salida st = (Raise e, st).
Proof.
  intros Hc [Hl|(Hl & Hf & ->)]; (apply analizar_archivo_sin_lectura; [done|]);
    unfold read_all, open_r; rewrite Hl; [done|by rewrite Hf].
Qed.

Lemma analizar_archivo_sin_entrada_ej :
  analizar_archivo entorno_llano ruta_entrada ruta_salida
    (estado tabla_kw {[ ruta_salida := lit "antes" ]})
  = (Raise (FileNotFoundError ruta_entrada),
     estado tabla_kw {[ ruta_salida := lit "antes" ]}).
Proof.
  apply (analizar_archivo_sin_entrada entorno_llano
           (estado tabla_kw {[ ruta_salida := lit "antes" ]})
           ruta_entrada ruta_salida (FileNotFoundError ruta_entrada)).
  - intros mensaje. reflexivity.
  - right. split; [reflexivity|]. split; [vm_compute; reflexivity|reflexivity].
Defined.

End extras.

Section saltos.
Import Py Re Analizador Spec Aux Ejemplos Enunciados Casos.

Lemma split_desde_espacio (c : N) (acc resto : str) :
  isspace c = true →
  split_desde acc (c :: resto)
  = (if truthy acc then [acc] else []) ++ split_desde [] resto.
Proof. intros Hc. simpl. rewrite Hc. by destruct (truthy acc). Qed.

Lemma split_desde_universal_newlines (n : nat) :
  ∀ s acc, (length s ≤ n)%nat →
           split_desde acc (universal_newlines s) = split_desde acc s.
Proof.
  induction n as [|n IH]; intros s acc Hn.
  - destruct s; [done|simpl in Hn; lia].
  - destruct s as [|c s]; [done|]. simpl in Hn.
    cbn [universal_newlines]. destruct (N.eqb_spec c CR) as [->|Hc].
    + rewrite !(split_desde_espacio _ acc) by done. f_equal.
      destruct s as [|d s]; [done|]. simpl in Hn.
      destruct (N.eqb_spec d LF) as [->|Hd].
      * rewrite (split_desde_espacio LF []) by done. cbn [truthy app].
        apply IH. lia.
      * apply IH. simpl. lia.
    + simpl. destruct (isspace c).
      * destruct (truthy acc); [f_equal|]; apply IH; lia.
      * apply IH. lia.
Qed.

(** X16: the words of a text do not depend on how its lines end: with the
    carriage returns of the file read as newlines or left as they are,
    [split] gives the same words, so the results of the analysis are those
    of the words of the text of the file. *)
Theorem analizar_archivo_saltos (d fs : gmap str str) (texto : str) :
  split (universal_newlines texto) = split texto ∧
  analizar_palabras [] (split (universal_newlines texto)) (estado d fs)
  = (Ok (clasificacion d <$> split texto), estado d fs).
Proof.
  assert (Hs : split (universal_newlines texto) = split texto)
    by (by apply (split_desde_universal_newlines (length texto))).
  split; [done|]. rewrite Hs.
  rewrite (analizar_palabras_clasificacion d fs texto); [done|].
  by apply Forall_forall.
Qed.

(** A text with carriage returns: the four words, and their results. *)
Example analizar_archivo_saltos_ej :
  split (universal_newlines texto_crlf)
  = [lit "if"; lit "x1"; lit "1x"; lit "while"] ∧
  analizar_palabras [] (split (universal_newlines texto_crlf))
    (estado tabla_kw ∅)
  = (Ok resultados, estado tabla_kw ∅).
Proof.
  destruct (analizar_archivo_saltos tabla_kw ∅ texto_crlf) as [Hs Ha].
  split; [rewrite Hs; vm_compute; reflexivity|].
  rewrite Ha. vm_compute. reflexivity.
Defined.

End saltos.

(** ** The entry point *)

Section principal.
Import Py Re Analizador Spec Aux Ejemplos Enunciados Casos Principal.

Lemma lineas_desde_Forall (P : N → Prop) (s : str) :
  Forall P s → ∀ acc, Forall P acc → Forall (Forall P) (lineas_desde acc s).
Proof.
  induction 1 as [|c s Hc Hs IH]; intros acc Hacc; simpl.
  - destruct (truthy acc); by repeat constructor.
  - destruct (c =? LF).
    + constructor; [|by apply IH]. apply Forall_app. by repeat constructor.
    + apply IH. apply Forall_app. by repeat constructor.
Qed.

(** The kinds of a dictionary that can be encoded can be encoded. *)
Lemma tabla_codificable (diccionario : str) :
  codificable diccionario = true →
  map_Forall (λ _ tipo, codificable tipo = true)
    (insertar ∅ (entradas diccionario)).
Proof.
  intros Hd k v [H|H]%insertar_lookup_Some;
    [|by rewrite lookup_empty in H].
  unfold entradas in H. apply list_elem_of_omap in H as (linea & Hl & He).
  assert (Hlinea : Forall (λ c, negb ((55296 <=? c) && (c <=? 57343)) = true)
                     linea).
  { pose proof (lineas_desde_Forall _ (universal_newlines diccionario)
                  (universal_newlines_Forall _ _ eq_refl
                     (proj1 (codificable_Forall _) Hd)) [] (Forall_nil_2 _))
      as Hls.
    rewrite Forall_forall in Hls. by apply Hls. }
  pose proof (split_desde_Forall _ linea Hlinea [] (Forall_nil_2 _)) as Hs.
  unfold entrada_de in He. fold (split linea) in Hs.
  destruct (split linea) as [|a [|b [|c partes]]]; try done.
  injection He as -> ->. apply Forall_cons in Hs as [_ Hs].
  apply Forall_cons in Hs as [Hv _]. by apply codificable_Forall.
Qed.

Lemma construir_eq (so : Entorno) (archivo : str) (fs : gmap str str) :
  consola_fiable so →
  construir so archivo fs =
    match error_al_leer so archivo with
    | Some e => (Raise e, fs)
    | None => init archivo fs
    end.
Proof.
  intros Hc. unfold construir, imprimir. cbv zeta.
  destruct (error_al_leer so archivo) as [e|].
  - by rewrite Hc.
  - destruct (init archivo fs) as [[a|e] fs1]; by rewrite Hc.
Qed.

Lemma main_eq (so : Entorno) (fs : gmap str str) :
  consola_fiable so →
  main so fs =
    match construir so ruta_diccionario fs with
    | (Raise _, fs1) => (Ok 1%Z, fs1)
    | (Ok a, fs1) =>
        match analizar_archivo so ruta_entrada ruta_salida
                {| self := a; archivos := fs1 |} with
        | (Raise _, st) => (Ok 1%Z, archivos st)
        | (Ok _, st) => (Ok 0%Z, archivos st)
        end
    end.
Proof.
  intros Hc. unfold main, imprimir. cbv zeta. rewrite !Hc.
  change (lit "diccionario.txt") with ruta_diccionario.
  change (lit "texto_entrada.txt") with ruta_entrada.
  change (lit "tokens_salida.txt") with ruta_salida.
  destruct (construir so ruta_diccionario fs) as [[a|e] fs1];
    [|by rewrite ?Hc].
  destruct (analizar_archivo so ruta_entrada ruta_salida
              {| self := a; archivos := fs1 |}) as [[[]|e] st];
    by rewrite ?Hc.
Qed.

(** X15: [main] when the console prints every message. It returns 1 and
    leaves the files as they were when diccionario.txt is missing or cannot
    be read, when texto_entrada.txt is missing or cannot be read, and when
    tokens_salida.txt cannot be opened for writing. It returns 0 when both
    files are read, their texts can be encoded and the output can be
    opened; tokens_salida.txt then holds the report of the words of the
    input classified with the table of the dictionary. *)
Theorem main_codigo (so : Entorno) (fs : gmap str str) :
  consola_fiable so →
  (error_al_leer so ruta_diccionario ≠ None ∨ fs !! ruta_diccionario = None →
   main so fs = (Ok 1%Z, fs)) ∧
  (∀ diccionario,
     error_al_leer so ruta_diccionario = None →
     fs !! ruta_diccionario = Some diccionario →
     (error_al_leer so ruta_entrada ≠ None ∨ fs !! ruta_entrada = None →
      main so fs = (Ok 1%Z, fs)) ∧
     (∀ texto,
        error_al_leer so ruta_entrada = None →
        fs !! ruta_entrada = Some texto →
        (error_al_abrir so ruta_salida ≠ None → main so fs = (Ok 1%Z, fs)) ∧
        (error_al_abrir so ruta_salida = None →
         codificable diccionario = true →
         codificable texto = true →
         main so fs
         = (Ok 0%Z,
            poner so ruta_salida
              (informe (clasificacion (insertar ∅ (entradas diccionario))
                          <$> split (universal_newlines texto))) fs)))).
Proof.
  intros Hc. rewrite (main_eq so fs Hc), (construir_eq so _ fs Hc). split.
  { intros [Hl|Hf].
    - by destruct (error_al_leer so ruta_diccionario).
    - destruct (error_al_leer so ruta_diccionario); [done|].
      unfold init. by rewrite cargar_diccionario_sin_archivo. }
  intros diccionario Hl Hf. rewrite Hl, (init_eq _ _ _ Hf).
  change {| self := analizador (insertar ∅ (entradas diccionario));
            archivos := fs |}
    with (estado (insertar ∅ (entradas diccionario)) fs).
  split.
  { intros [He|He].
    - destruct (error_al_leer so ruta_entrada) as [e|] eqn:Hle; [|done].
      rewrite (analizar_archivo_sin_lectura so _ _ _ e Hc); [done|].
      unfold read_all. by rewrite Hle.
    - destruct (error_al_leer so ruta_entrada) as [e|] eqn:Hle.
      + rewrite (analizar_archivo_sin_lectura so _ _ _ e Hc); [done|].
        unfold read_all. by rewrite Hle.
      + rewrite (analizar_archivo_sin_lectura so _ _ _
                   (FileNotFoundError ruta_entrada) Hc); [done|].
        unfold read_all, open_r. rewrite Hle. cbn [estado archivos].
        by rewrite He. }
  intros texto Hle He.
  rewrite (analizar_archivo_eq so _ fs _ _ texto Hc Hle He). split.
  - intros Hp. destruct (error_al_abrir so ruta_salida) as [e|] eqn:Hpe;
      [|done].
    by rewrite (generar_salida_cerrado so _ _ _ e Hc Hpe).
  - intros Hp Hcd Hct.
    by rewrite (generar_salida_eq so _ _ _ Hc Hp
                  (clasificacion_escribible _ texto Hct
                     (tabla_codificable _ Hcd))).
Qed.

Lemma main_codigo_ej :
  main entorno_llano archivos_completos
  = (Ok 0%Z, <[ruta_salida := informe resultados]> archivos_completos) ∧
  main entorno_llano ∅ = (Ok 1%Z, ∅).
Proof.
  assert (Hc : consola_fiable entorno_llano) by (intros mensaje; reflexivity).
  split.
  - destruct (main_codigo entorno_llano archivos_completos Hc) as [_ H].
    destruct (H (lit "if KW_IF" ++ [LF] ++ lit "while KW_WHILE")
                eq_refl eq_refl) as [_ H'].
    destruct (H' (lit "if x1 1x" ++ [LF] ++ lit "while") eq_refl eq_refl)
      as [_ H''].
    rewrite (H'' eq_refl eq_refl eq_refl). vm_compute. reflexivity.
  - destruct (main_codigo entorno_llano ∅ Hc) as [H _].
    apply H. right. reflexivity.
Defined.

End principal.

(** ** Runs *)

Section ejecucion.
Import Py Re Analizador Spec Ejemplos Enunciados Casos Principal.

(** A console without the accented capitals of the banner: [main] raises
    before it reads a file. *)
Example main_consola_ascii :
  main entorno_ascii archivos_completos
  = (Raise UnicodeEncodeError, archivos_completos).
Proof. by vm_compute. Qed.

(** A dictionary that is not UTF-8: [main] returns 1 and writes nothing. *)
Example main_diccionario_binario :
  main entorno_binario archivos_completos = (Ok 1%Z, archivos_completos).
Proof. by vm_compute. Qed.

(** A console without the accented letter of the message of success:
    [analizar_archivo] raises with the report written in full. *)
Example analizar_archivo_consola_ascii :
  analizar_archivo entorno_ascii ruta_entrada ruta_salida
    (estado tabla_kw {[ ruta_entrada := texto_entrada ]})
  = (Raise UnicodeEncodeError,
     estado tabla_kw {[ ruta_entrada := texto_entrada;
                        ruta_salida := informe resultados ]}).
Proof. by vm_compute. Qed.

(** An output path that names the input file: the report takes the place of
    the input under both paths. *)
Example analizar_archivo_sobre_la_entrada :
  analizar_archivo entorno_llano ruta_entrada (lit "./texto_entrada.txt")
    (estado tabla_kw {[ ruta_entrada := texto_entrada ]})
  = (Ok (), estado tabla_kw {[ ruta_entrada := informe resultados;
                               lit "./texto_entrada.txt" := informe resultados ]}).
Proof. by vm_compute. Qed.

End ejecucion.
